(** * Reddit lead extraction (scripts/get-reddit-leads.py)

    A shallow embedding of the script and the properties of its text cleaner,
    its deindexer, its per-row lead locator and its orchestrator.

    Modelling choices, once for the whole file:
    - a Python value obtained from [json.loads] is a [value]; JSON numbers are
      integers ([VInt]): every test the script makes on a number (truth value,
      [isinstance], [in], hashing) reads a fractional number as it reads an
      integer;
    - a [str] is a Rocq [string], one character after the other; [\s],
      [\w], [\d] and [str.strip] are the ASCII parts of Python's classes
      (code points beyond 127 belong to none of them here);
    - [str.isdigit] and [int] are the interpreter's own: what they accept
      depends on the Unicode tables and on the interpreter's limit on integer
      conversion.  They are taken as given ([interpreter]) and the properties
      hold for every interpreter; [cpython] is CPython 3.11, for the sample
      inputs;
    - a [dict] is an association list in insertion order, a key occurring at
      most once in the dicts Python builds;
    - a raised exception is a [Raise e] result; the SQLite connection, zlib,
      the UTF-8 decoder and [json.loads] are library code, given by what they
      return or raise. *)

From Stdlib Require Import List String Ascii ZArith Arith Bool Lia.
From Stdlib Require Import Sorting.Sorted Sorting.Permutation Relations OrdersEx.
From Stdlib Require Import RelationClasses.
Import ListNotations.

Local Open Scope string_scope.
Local Open Scope list_scope.

(** ** Python values and exceptions *)

#[local] Set Warnings "-register-all".

Inductive value : Type :=
| VNone
| VBool (b : bool)
| VInt (n : Z)
| VStr (s : string)
| VList (items : list value)
| VDict (items : list (string * value)).

(** A dict, in insertion order. *)
Definition dict : Type := list (string * value).

Inductive exc : Type :=
| TypeError
| AttributeError
| RecursionError
| ValueError
| DecodeError
| JSONDecodeError.

Inductive result (A : Type) : Type :=
| Ok (a : A)
| Raise (e : exc).
Arguments Ok {A} a.
Arguments Raise {A} e.

Definition rbind {A B} (r : result A) (f : A -> result B) : result B :=
  match r with
  | Ok a => f a
  | Raise e => Raise e
  end.

Notation "x <- r ;; k" := (rbind r (fun x => k))
  (at level 61, r at next level, right associativity).

(** [for x in xs: f x], collecting the results; the first exception stops it. *)
Fixpoint rmap {A B} (f : A -> result B) (xs : list A) : result (list B) :=
  match xs with
  | [] => Ok []
  | x :: xs' =>
      match f x with
      | Ok y => match rmap f xs' with
                | Ok ys => Ok (y :: ys)
                | Raise e => Raise e
                end
      | Raise e => Raise e
      end
  end.

(** Python's truth value: [bool(v)]. *)
Definition truthy (v : value) : bool :=
  match v with
  | VNone => false
  | VBool b => b
  | VInt n => negb (n =? 0)%Z
  | VStr s => negb (s =? "")
  | VList items => match items with [] => false | _ => true end
  | VDict items => match items with [] => false | _ => true end
  end.

(** ** Dictionaries *)

(** [key in d]. *)
Fixpoint dict_has (d : dict) (key : string) : bool :=
  match d with
  | [] => false
  | (k, _) :: d' => if k =? key then true else dict_has d' key
  end.

(** [d[key]] where the key is there; [None] stands for KeyError. *)
Fixpoint dict_lookup (d : dict) (key : string) : option value :=
  match d with
  | [] => None
  | (k, v) :: d' => if k =? key then Some v else dict_lookup d' key
  end.

(** [d.get(key, default)]. *)
Definition dict_get (d : dict) (key : string) (default : value) : value :=
  match dict_lookup d key with
  | Some v => v
  | None => default
  end.

(** [d[key] = v]: an existing key keeps its place, a new one goes last. *)
Fixpoint dict_set (d : dict) (key : string) (v : value) : dict :=
  match d with
  | [] => [(key, v)]
  | (k, w) :: d' =>
      if k =? key then (k, v) :: d' else (k, w) :: dict_set d' key v
  end.

(** ** Character classes (ASCII) *)

Definition code (c : ascii) : nat := nat_of_ascii c.

Definition in_range (lo hi : nat) (c : ascii) : bool :=
  ((lo <=? code c) && (code c <=? hi))%nat.

(** [\d]: the ASCII digits. *)
Definition is_digit (c : ascii) : bool := in_range 48 57 c.

(** [\w]: letters, digits and the underscore. *)
Definition is_word (c : ascii) : bool :=
  in_range 97 122 c || in_range 65 90 c || is_digit c || (code c =? 95)%nat.

(** [\s] and [str.isspace]: tab to carriage return, the four separators
    0x1c-0x1f and the space. *)
Definition is_space (c : ascii) : bool :=
  in_range 9 13 c || in_range 28 31 c || (code c =? 32)%nat.

(** [.] without DOTALL: anything but a newline. *)
Definition is_dot (c : ascii) : bool := negb (code c =? 10)%nat.

Definition is_char (x : ascii) (c : ascii) : bool := Ascii.eqb x c.

(** ** The regular expressions of the cleaner

    Each pattern of [clean_html_content] is a sequence of atoms: a literal
    character, one character of a class, a class under [*], [*?] or [+], or
    the word boundary [\b].  The matcher backtracks as Python's [re] does:
    a greedy star tries the longest run first, a lazy one the shortest. *)

Inductive atom : Type :=
| Chr (c : ascii)
| One (cls : ascii -> bool)
| Star (cls : ascii -> bool)
| StarLazy (cls : ascii -> bool)
| Plus (cls : ascii -> bool)
| Boundary.

Definition regex : Type := list atom.

Fixpoint lit (s : string) : regex :=
  match s with
  | EmptyString => []
  | String c s' => Chr c :: lit s'
  end.

Definition next_is_word (s : string) : bool :=
  match s with
  | EmptyString => false
  | String c _ => is_word c
  end.

(** [k] is the rest of the pattern; [prev] tells whether the character before
    the current position is a word character; the result is what is left of
    the string after the match. *)
Fixpoint star_greedy (cls : ascii -> bool) (k : bool -> string -> option string)
    (prev : bool) (s : string) : option string :=
  match s with
  | EmptyString => k prev s
  | String c s' =>
      if cls c then
        match star_greedy cls k (is_word c) s' with
        | Some rest => Some rest
        | None => k prev s
        end
      else k prev s
  end.

Fixpoint star_lazy (cls : ascii -> bool) (k : bool -> string -> option string)
    (prev : bool) (s : string) : option string :=
  match k prev s with
  | Some rest => Some rest
  | None =>
      match s with
      | EmptyString => None
      | String c s' => if cls c then star_lazy cls k (is_word c) s' else None
      end
  end.

Fixpoint match_here (re : regex) (prev : bool) (s : string) {struct re}
  : option string :=
  match re with
  | [] => Some s
  | Chr x :: re' =>
      match s with
      | String c s' => if Ascii.eqb x c then match_here re' (is_word c) s' else None
      | EmptyString => None
      end
  | One cls :: re' =>
      match s with
      | String c s' => if cls c then match_here re' (is_word c) s' else None
      | EmptyString => None
      end
  | Star cls :: re' => star_greedy cls (match_here re') prev s
  | StarLazy cls :: re' => star_lazy cls (match_here re') prev s
  | Plus cls :: re' =>
      match s with
      | String c s' =>
          if cls c then star_greedy cls (match_here re') (is_word c) s' else None
      | EmptyString => None
      end
  | Boundary :: re' =>
      if xorb prev (next_is_word s) then match_here re' prev s else None
  end.

(** [re.sub(re, repl, s)]: the leftmost match at each position, matches not
    overlapping.  [skip] counts the characters of the current match still to
    be dropped.  Every pattern of the cleaner consumes at least one character
    (see [min_len] below); an empty match is left alone. *)
Fixpoint sub_from (re : regex) (repl : string) (prev : bool) (skip : nat)
    (s : string) : string :=
  match s with
  | EmptyString => EmptyString
  | String c s' =>
      match skip with
      | S n => sub_from re repl (is_word c) n s'
      | O =>
          match match_here re prev s with
          | Some rest =>
              match String.length s - String.length rest with
              | S n => repl ++ sub_from re repl (is_word c) n s'
              | O => String c (sub_from re repl (is_word c) 0 s')
              end
          | None => String c (sub_from re repl (is_word c) 0 s')
          end
      end
  end.

Definition re_sub (re : regex) (repl : string) (s : string) : string :=
  sub_from re repl false 0 s.

(** [s.lstrip()], [s.rstrip()], [s.strip()]. *)
Fixpoint lstrip (s : string) : string :=
  match s with
  | EmptyString => EmptyString
  | String c s' => if is_space c then lstrip s' else s
  end.

Fixpoint rstrip (s : string) : string :=
  match s with
  | EmptyString => EmptyString
  | String c s' =>
      match rstrip s' with
      | EmptyString => if is_space c then EmptyString else String c EmptyString
      | r => String c r
      end
  end.

Definition strip (s : string) : string := rstrip (lstrip s).

(** ** clean_html_content (lines 18-52) *)

Definition not_gt (c : ascii) : bool := negb (is_char ">" c).
Definition not_space_gt (c : ascii) : bool := negb (is_space c) && not_gt c.
Definition entity_char (c : ascii) : bool :=
  in_range 97 122 c || in_range 65 90 c || is_digit c || is_char "#" c.

(** The patterns, in the order of the source. *)
Definition re_comment : regex := lit "!--" ++ [StarLazy is_dot] ++ lit "--".
Definition re_tag : regex := lit "<" ++ [Star not_gt] ++ lit ">".
Definition re_div_class : regex := lit "div class=" ++ [Star is_space; Plus is_word].
Definition re_span_class : regex := lit "span class=" ++ [Star is_space; Plus is_word].
Definition re_a_href : regex := lit "a href=" ++ [Star is_space; Plus not_space_gt].
Definition re_word (w : string) : regex := [Boundary] ++ lit w ++ [Boundary].
Definition re_entity : regex := lit "&" ++ [Plus entity_char] ++ lit ";".
Definition re_hash_entity : regex := lit "#" ++ [Plus is_digit] ++ lit ";".
Definition re_spaces : regex := [Plus is_space].

(** The body of the function on a non-empty [str] (lines 24-50). *)
Definition clean_text (content : string) : string :=
  let content := re_sub re_comment "" content in
  let content := re_sub re_tag "" content in
  let content := re_sub re_div_class "" content in
  let content := re_sub re_span_class "" content in
  let content := re_sub re_a_href "" content in
  let content := re_sub (lit "/div") "" content in
  let content := re_sub (lit "/span") "" content in
  let content := re_sub (lit "/a") "" content in
  let content := re_sub (lit "/p") "" content in
  let content := re_sub (re_word "p") "" content in
  let content := re_sub (re_word "md") "" content in
  let content := re_sub (re_word "br") "" content in
  let content := re_sub re_entity " " content in
  let content := re_sub re_hash_entity "" content in
  let content := re_sub (lit "submitted by") "" content in
  let content := re_sub (lit "[link]") "" content in
  let content := re_sub (lit "[comments]") "" content in
  let content := re_sub re_spaces " " content in
  strip content.

(** [if not content: return ''], then the substitutions; [re.sub] raises
    TypeError on what is not a string. *)
Definition clean_html_content (content : value) : result string :=
  if negb (truthy content) then Ok ""
  else match content with
       | VStr s => Ok (clean_text s)
       | _ => Raise TypeError
       end.

(** ** The interpreter's str.isdigit and int

    [str.isdigit] follows the Unicode tables: it accepts the ASCII digits,
    the decimal digits of other scripts and digit-like characters such as
    superscripts.  [int] raises ValueError on what it does not convert: text
    that is no integer literal, digit-like characters that are no decimals,
    more digits than the interpreter's limit on integer conversion.  The
    script is read for any interpreter, given by these functions; [None]
    stands for ValueError. *)
Class interpreter : Type := {
  (* s.isdigit() *)
  isdigit : string -> bool;
  (* int(s) for a string that isdigit accepts (line 57): such a string holds
     no sign, so the number is natural *)
  int_of : string -> option N;
  (* int(s) for a command-line argument (lines 209 and 211) *)
  py_int : string -> option Z }.

(** ** deref (lines 54-64) *)

(** [data[idx]] for an index in range. *)
Definition table_get (data : list value) (idx : N) : value :=
  nth (N.to_nat idx) data VNone.

(** [deref(val, data)], [depth] the number of nested calls Python allows: a
    call that would go deeper raises RecursionError.  The branches are those
    of the source: a string that [isdigit] accepts goes to [int], whose
    ValueError nothing catches; an index in range is followed; one out of
    range falls through to [return val]. *)
Fixpoint deref {py : interpreter} (depth : nat) (val : value) (data : list value)
  : result value :=
  match depth with
  | O => Raise RecursionError
  | S depth' =>
      match val with
      | VStr s =>
          if isdigit s then
            match int_of s with
            | Some idx =>
                if (idx <? N.of_nat (List.length data))%N
                then deref depth' (table_get data idx) data
                else Ok val
            | None => Raise ValueError
            end
          else Ok val
      | VDict items =>
          match rmap (fun kv : string * value =>
                        match deref depth' (snd kv) data with
                        | Ok v => Ok (fst kv, v)
                        | Raise e => Raise e
                        end) items with
          | Ok items' => Ok (VDict items')
          | Raise e => Raise e
          end
      | VList items =>
          match rmap (fun v => deref depth' v data) items with
          | Ok items' => Ok (VList items')
          | Raise e => Raise e
          end
      | _ => Ok val
      end
  end.

(** The index strings a value holds where [deref] looks: itself, the elements
    of a list, the values (not the keys) of a dict.  An index string is one
    that [isdigit] accepts and [int] converts to a number below the length
    of the table. *)
Inductive mentions {py : interpreter} (data : list value) : value -> nat -> Prop :=
| mentions_str s idx :
    isdigit s = true ->
    int_of s = Some idx ->
    (idx < N.of_nat (List.length data))%N ->
    mentions data (VStr s) (N.to_nat idx)
| mentions_list items v j :
    In v items -> mentions data v j -> mentions data (VList items) j
| mentions_dict items k v j :
    In (k, v) items -> mentions data v j -> mentions data (VDict items) j.

(** Entry [i] of the table refers to entry [j]. *)
Definition refers {py : interpreter} (data : list value) (i j : nat) : Prop :=
  i < List.length data /\ mentions data (nth i data VNone) j.

(** No chain of references from an entry comes back to it. *)
Definition acyclic {py : interpreter} (data : list value) : Prop :=
  forall i, ~ clos_trans nat (refers data) i i.

(** The entries a value mentions, computed. *)
Fixpoint refs_of {py : interpreter} (len : N) (v : value) : list nat :=
  match v with
  | VStr s =>
      if isdigit s then
        match int_of s with
        | Some idx => if (idx <? len)%N then [N.to_nat idx] else []
        | None => []
        end
      else []
  | VList items => flat_map (refs_of len) items
  | VDict items => flat_map (fun kv => refs_of len (snd kv)) items
  | _ => []
  end.

(** No chain of [k] references starts at entry [i]. *)
Fixpoint chain_free {py : interpreter} (data : list value) (k i : nat) : bool :=
  match k with
  | O => false
  | S k' =>
      forallb (chain_free data k')
              (refs_of (N.of_nat (List.length data)) (nth i data VNone))
  end.

(** A check of acyclicity: in a table of n entries no chain of n references
    starts anywhere (a cycle gives chains of every length). *)
Definition acyclicb {py : interpreter} (data : list value) : bool :=
  forallb (chain_free data (List.length data)) (seq 0 (List.length data)).

(** [deref] ends on [v] when it may recurse deeply enough: it returns, or
    [int] raises. *)
Definition terminates {py : interpreter} (data : list value) (v : value) : Prop :=
  exists d, deref d v data <> Raise RecursionError.

(** Every string of the value that [isdigit] accepts is one [int] converts
    (where [deref] looks: the value itself, list elements, dict values). *)
Fixpoint converts {py : interpreter} (v : value) : bool :=
  match v with
  | VStr s =>
      if isdigit s then
        match int_of s with
        | Some _ => true
        | None => false
        end
      else true
  | VList items => forallb converts items
  | VDict items => forallb (fun kv => converts (snd kv)) items
  | _ => true
  end.

(** ** Operations of Python the locator relies on *)

Fixpoint is_substring (needle s : string) : bool :=
  if prefix needle s then true
  else match s with
       | EmptyString => false
       | String _ s' => is_substring needle s'
       end.

(** [needle in v] for a [str] needle: a key of a dict, an element of a list,
    a substring of a string; TypeError on what is not a container. *)
Definition py_in (needle : string) (v : value) : result bool :=
  match v with
  | VDict d => Ok (dict_has d needle)
  | VList items =>
      Ok (existsb (fun x => match x with VStr s => s =? needle | _ => false end) items)
  | VStr s => Ok (is_substring needle s)
  | _ => Raise TypeError
  end.

(** [d[key]], used where [key in d] has just been tested. *)
Definition dict_item (d : dict) (key : string) : value := dict_get d key VNone.

(** [v.items()]. *)
Definition py_items (v : value) : result dict :=
  match v with
  | VDict d => Ok d
  | _ => Raise AttributeError
  end.

(** [v.get(key, default)]. *)
Definition py_get (v : value) (key : string) (default : value) : result value :=
  match v with
  | VDict d => Ok (dict_get d key default)
  | _ => Raise AttributeError
  end.

(** [len(v)]. *)
Definition py_len (v : value) : result nat :=
  match v with
  | VStr s => Ok (String.length s)
  | VList items => Ok (List.length items)
  | VDict d => Ok (List.length d)
  | _ => Raise TypeError
  end.

Fixpoint chars (s : string) : list value :=
  match s with
  | EmptyString => []
  | String c s' => VStr (String c EmptyString) :: chars s'
  end.

(** What [for x in v] goes through. *)
Definition py_iter (v : value) : result (list value) :=
  match v with
  | VList items => Ok items
  | VStr s => Ok (chars s)
  | VDict d => Ok (map (fun kv => VStr (fst kv)) d)
  | _ => Raise TypeError
  end.

(** ** extract_leads_from_execution (lines 66-78) *)

Definition looks_like_lead (item : value) : bool :=
  match item with
  | VDict d => dict_has d "title" && dict_has d "subreddit" && dict_has d "link"
  | _ => false
  end.

Fixpoint extract_loop {py : interpreter} (depth : nat) (data items : list value) : result (list value) :=
  match items with
  | [] => Ok []
  | item :: rest =>
      if looks_like_lead item then
        lead <- deref depth item data ;;
        leads <- extract_loop depth data rest ;;
        Ok (lead :: leads)
      else extract_loop depth data rest
  end.

Definition extract_leads_from_execution {py : interpreter} (depth : nat)
    (data : list value) : result (list value) :=
  extract_loop depth data data.

(** ** The per-row block of get_leads (lines 102-153)

    The block appends to [all_leads] as it goes and may raise half-way: a
    computation gives the leads appended so far and how it ended. *)

Definition emit (A : Type) : Type := (list dict * result A)%type.

Definition eret {A} (a : A) : emit A := ([], Ok a).

Definition elift {A} (r : result A) : emit A := ([], r).

Definition ebind {A B} (m : emit A) (f : A -> emit B) : emit B :=
  match m with
  | (out, Ok a) => let (out', r) := f a in (out ++ out', r)
  | (out, Raise e) => (out, Raise e)
  end.

Notation "x <~ m ;; k" := (ebind m (fun x => k))
  (at level 61, m at next level, right associativity).

(** [all_leads.append(lead)]. *)
Definition append (lead : dict) : emit unit := ([lead], Ok tt).

(** [for x in xs: body x]. *)
Fixpoint efor {A} (xs : list A) (body : A -> emit unit) : emit unit :=
  match xs with
  | [] => eret tt
  | x :: xs' => _ <~ body x ;; efor xs' body
  end.

(** [lead['foundAt'] = started_at; lead['executionId'] = exec_id;
    all_leads.append(lead)]; item assignment with a [str] key raises
    TypeError on anything but a dict.  The dict that is changed is shared
    with no other lead: [json.loads] builds a tree and [deref] builds new
    dicts. *)
Definition tag_and_append (exec_id : Z) (started_at : string) (lead : value)
  : emit unit :=
  match lead with
  | VDict d =>
      append (dict_set (dict_set d "foundAt" (VStr started_at))
                       "executionId" (VInt exec_id))
  | _ => elift (Raise TypeError)
  end.

(** Lines 136-141, one item of an item list. *)
Definition run_item (exec_id : Z) (started_at : string) (item : value) : emit unit :=
  match item with
  | VDict it =>
      if dict_has it "json" then
        let lead_data := dict_item it "json" in
        has_title <~ elift (py_in "title" lead_data) ;;
        if has_title : bool then
          has_link <~ elift (py_in "link" lead_data) ;;
          if has_link : bool then tag_and_append exec_id started_at lead_data
          else eret tt
        else eret tt
      else eret tt
  | _ => eret tt
  end.

(** Lines 130-141, one run object of a node. *)
Definition run_object (exec_id : Z) (started_at : string) (run : value) : emit unit :=
  match run with
  | VDict rd =>
      if dict_has rd "data" then
        main_data <~ elift (py_get (dict_item rd "data") "main" (VList [VList []])) ;;
        if truthy main_data then
          n <~ elift (py_len main_data) ;;
          if (0 <? n)%nat then
            item_lists <~ elift (py_iter main_data) ;;
            efor item_lists (fun item_list =>
              match item_list with
              | VList items => efor items (run_item exec_id started_at)
              | _ => eret tt
              end)
          else eret tt
        else eret tt
      else eret tt
  | _ => eret tt
  end.

(** Lines 123-141: the run-data branch, on [exec_data['resultData']]. *)
Definition run_data_block (exec_id : Z) (started_at : string) (result : value)
  : emit unit :=
  match result with
  | VDict r =>
      if dict_has r "runData" then
        run_data <~ elift (py_items (dict_item r "runData")) ;;
        efor run_data (fun node =>
          match snd node with
          | VList runs => efor runs (run_object exec_id started_at)
          | _ => eret tt
          end)
      else eret tt
  | _ => eret tt
  end.

(** Lines 144-149: the indexed-array branch, on [data_array]. *)
Definition indexed_block {py : interpreter} (depth : nat) (exec_id : Z)
    (started_at : string) (data_array : value) : emit unit :=
  if truthy data_array then
    match data_array with
    | VList data =>
        leads <~ elift (extract_leads_from_execution depth data) ;;
        efor leads (tag_and_append exec_id started_at)
    | _ => eret tt
    end
  else eret tt.

(** Lines 116-149 on the parsed payload: [data_array] starts as [None]; the
    [if]/[elif] chain either sets it or runs the run-data branch. *)
Definition locate_leads {py : interpreter} (depth : nat) (exec_id : Z)
    (started_at : string) (exec_data : value) : emit unit :=
  data_array <~
    match exec_data with
    | VList _ => eret exec_data
    | VDict d =>
        if dict_has d "data" then eret (dict_item d "data")
        else if dict_has d "resultData" then
          _ <~ run_data_block exec_id started_at (dict_item d "resultData") ;;
          eret VNone
        else eret VNone
    | _ => eret VNone
    end ;;
  indexed_block depth exec_id started_at data_array.

(** The [data] column of a row, by what lines 106-113 make of it: the value
    [json.loads] returns, or the exception that leaves the inner [try]
    (the second decoding failed, or the text is not JSON). *)
Inductive blob : Type :=
| Parsed (exec_data : value)
| Unreadable (e : exc).

Record row : Type := {
  exec_id : Z;
  started_at : string;
  stopped_at : string;
  status : string;
  data_blob : blob }.

(** The inner [try] on one row, before the [except] looks at it. *)
Definition row_block {py : interpreter} (depth : nat) (r : row) : emit unit :=
  match data_blob r with
  | Unreadable e => elift (Raise e)
  | Parsed exec_data => locate_leads depth (exec_id r) (started_at r) exec_data
  end.

(** [except Exception: continue]: what the row has appended stays. *)
Definition row_leads {py : interpreter} (depth : nat) (r : row) : list dict :=
  fst (row_block depth r).

Definition row_raises {py : interpreter} (depth : nat) (r : row) : bool :=
  match snd (row_block depth r) with
  | Ok _ => false
  | Raise _ => true
  end.

(** ** Deduplication, sort, pagination, normalization (lines 160-200) *)

(** What a set can hold among JSON values. *)
Definition hashable (v : value) : bool :=
  match v with
  | VList _ | VDict _ => false
  | _ => true
  end.

Definition as_number (v : value) : option Z :=
  match v with
  | VBool b => Some (Z.b2z b)
  | VInt n => Some n
  | _ => None
  end.

(** Python's [==] on hashable values ([True == 1]). *)
Definition key_eqb (a b : value) : bool :=
  match a, b with
  | VNone, VNone => true
  | VStr s, VStr t => s =? t
  | _, _ =>
      match as_number a, as_number b with
      | Some m, Some n => (m =? n)%Z
      | _, _ => false
      end
  end.

Definition link_of (lead : dict) : value := dict_get lead "link" (VStr "").

(** Lines 161-167; what is returned is [unique_leads].  Testing membership
    of a list or a dict in a set raises TypeError. *)
Fixpoint dedup_loop (seen_links : list value) (all_leads : list dict)
  : result (list dict) :=
  match all_leads with
  | [] => Ok []
  | lead :: rest =>
      let link := link_of lead in
      if truthy link then
        if hashable link then
          if existsb (key_eqb link) seen_links then dedup_loop seen_links rest
          else
            unique_leads <- dedup_loop (link :: seen_links) rest ;;
            Ok (lead :: unique_leads)
        else Raise TypeError
      else dedup_loop seen_links rest
  end.

Definition dedup (all_leads : list dict) : result (list dict) :=
  dedup_loop [] all_leads.

(** [x.get('foundAt', '')].  The value is a string for every lead that
    get_leads builds ([tag_and_append] sets it to the row's startedAt);
    how Python orders keys that are not strings is not modelled. *)
Definition found_at_key (lead : dict) : string :=
  match dict_get lead "foundAt" (VStr "") with
  | VStr s => s
  | _ => ""
  end.

(** [list.sort(key=..., reverse=True)] is stable: a lead goes before the
    first one whose key is not greater than its own. *)
Fixpoint insert_desc (x : dict) (sorted : list dict) : list dict :=
  match sorted with
  | [] => [x]
  | y :: ys =>
      if (found_at_key x <? found_at_key y) then y :: insert_desc x ys
      else x :: sorted
  end.

Definition sort_leads (unique_leads : list dict) : list dict :=
  fold_right insert_desc [] unique_leads.

(** A bound of a slice, clipped as Python does ([n] the length). *)
Definition slice_bound (n i : Z) : Z :=
  if (i <? 0)%Z then Z.max (i + n) 0 else Z.min i n.

(** [l[start:stop]]. *)
Definition py_slice {A} (l : list A) (start stop : Z) : list A :=
  let n := Z.of_nat (List.length l) in
  let a := slice_bound n start in
  let b := slice_bound n stop in
  firstn (Z.to_nat (b - a)) (skipn (Z.to_nat a) l).

(** [s.replace(old, new)] for a non-empty [old]. *)
Fixpoint replace_from (old new : string) (skip : nat) (s : string) : string :=
  match s with
  | EmptyString => EmptyString
  | String c s' =>
      match skip with
      | S n => replace_from old new n s'
      | O =>
          if prefix old s then new ++ replace_from old new (String.length old - 1) s'
          else String c (replace_from old new 0 s')
      end
  end.

(** [v.replace(old, '')]; only a [str] has the method. *)
Definition py_replace (v : value) (old : string) : result value :=
  match v with
  | VStr s => Ok (VStr (replace_from old "" 0 s))
  | _ => Raise AttributeError
  end.

(** Lines 179-192. *)
Definition normalize (lead : dict) : result dict :=
  subreddit <- py_replace (dict_get lead "subreddit" (VStr "")) "r/" ;;
  author <- py_replace (dict_get lead "author" (VStr "")) "u/" ;;
  content <-
    (if truthy (dict_get lead "content" VNone) then
       cleaned <- clean_html_content (dict_get lead "content" (VStr "")) ;;
       Ok (VStr (substring 0 300 cleaned))
     else Ok (VStr "")) ;;
  Ok [ ("id", dict_get lead "executionId" (VStr ""));
       ("title", dict_get lead "title" (VStr "Untitled"));
       ("subreddit", subreddit);
       ("author", author);
       ("link", dict_get lead "link" (VStr ""));
       ("content", content);
       ("priority", dict_get lead "priority" (VStr "Medium"));
       ("score", dict_get lead "score" (VInt 0));
       ("keywords", dict_get lead "highKeywords" (dict_get lead "keywords" (VStr "")));
       ("location", dict_get lead "location" (VStr ""));
       ("foundAt", dict_get lead "foundAt" (VStr ""));
       ("pubDate", dict_get lead "pubDate" (VStr "")) ].

Definition paginate (unique_leads : list dict) (limit offset : Z) : list dict :=
  py_slice unique_leads offset (offset + limit).

(** Lines 172-200 on the sorted collection: the slice, the normalized leads
    and the envelope. *)
Definition respond (unique_leads : list dict) (limit offset : Z) : result value :=
  let total := List.length unique_leads in
  let paginated := paginate unique_leads limit offset in
  normalized_leads <- rmap normalize paginated ;;
  Ok (VDict [ ("leads", VList (map VDict normalized_leads));
              ("total", VInt (Z.of_nat total));
              ("limit", VInt limit);
              ("offset", VInt offset) ]).

(** Lines 160-200: everything after the [try]. *)
Definition finish (all_leads : list dict) (limit offset : Z) : result value :=
  unique_leads <- dedup all_leads ;;
  respond (sort_leads unique_leads) limit offset.

(** ** The store and get_leads (lines 80-200) *)

(** What a call on the SQLite connection does: it returns, or it raises an
    exception whose [str] is the message. *)
Inductive call (A : Type) : Type :=
| Returns (a : A)
| Fails (message : string).
Arguments Returns {A} a.
Arguments Fails {A} message.

(** The store, as the five calls of get_leads find it. *)
Record store : Type := {
  connect : call unit;
  cursor : call unit;
  execute : call unit;
  fetchall : call (list row);
  close : call unit }.

(** The calls on the store that returned, in order. *)
Inductive event : Type := Connect | Cursor | Execute | Fetchall | Close.

Definition error_envelope (message : string) : value :=
  VDict [ ("error", VStr message); ("leads", VList []); ("total", VInt 0) ].

(** [get_leads(limit, offset)]: the trace of store calls and what the call
    returns ([Ok]) or lets escape ([Raise]).  [depth] is the recursion depth
    left to [deref]. *)
Definition get_leads {py : interpreter} (depth : nat) (db : store)
    (limit offset : Z) : list event * result value :=
  match connect db with
  | Fails message => ([], Ok (error_envelope message))
  | Returns _ =>
  match cursor db with
  | Fails message => ([Connect], Ok (error_envelope message))
  | Returns _ =>
  match execute db with
  | Fails message => ([Connect; Cursor], Ok (error_envelope message))
  | Returns _ =>
  match fetchall db with
  | Fails message => ([Connect; Cursor; Execute], Ok (error_envelope message))
  | Returns rows =>
      let all_leads := flat_map (row_leads depth) rows in
      match close db with
      | Fails message =>
          ([Connect; Cursor; Execute; Fetchall], Ok (error_envelope message))
      | Returns _ =>
          ([Connect; Cursor; Execute; Fetchall; Close], finish all_leads limit offset)
      end
  end end end end.

(** ** Notions the properties are stated with *)

(** The first of the five calls on the store that raises, with its message. *)
Definition store_failure (db : store) : option string :=
  match connect db, cursor db, execute db, fetchall db, close db with
  | Fails message, _, _, _, _ => Some message
  | _, Fails message, _, _, _ => Some message
  | _, _, Fails message, _, _ => Some message
  | _, _, _, Fails message, _ => Some message
  | _, _, _, _, Fails message => Some message
  | _, _, _, _, _ => None
  end.

(** The least number of characters a match of a pattern consumes. *)
Fixpoint min_len (re : regex) : nat :=
  match re with
  | [] => 0
  | (Chr _ | One _ | Plus _) :: re' => S (min_len re')
  | (Star _ | StarLazy _ | Boundary) :: re' => min_len re'
  end.

(** The patterns of [clean_html_content]. *)
Definition cleaner_patterns : list regex :=
  [ re_comment; re_tag; re_div_class; re_span_class; re_a_href;
    lit "/div"; lit "/span"; lit "/a"; lit "/p";
    re_word "p"; re_word "md"; re_word "br";
    re_entity; re_hash_entity;
    lit "submitted by"; lit "[link]"; lit "[comments]"; re_spaces ].



(** A lead that carries the provenance of row [r]. *)
Definition tagged (r : row) (lead : dict) : Prop :=
  dict_lookup lead "foundAt" = Some (VStr (started_at r))
  /\ dict_lookup lead "executionId" = Some (VInt (exec_id r)).



(** [b] is not before [a] in descending order of foundAt. *)
Definition found_at_ge (a b : dict) : Prop :=
  (found_at_key b <=? found_at_key a) = true.

Definition event_eq_dec (a b : event) : {a = b} + {a <> b}.
Proof.
  decide equality.
Defined.

(** ** Sample inputs *)

(** An indexed table: entry 0 is a lead whose link is the index string "1",
    entry 1 the link itself. *)
Definition sample_table : list value :=
  [ VDict [("title", VStr "Need a website");
           ("subreddit", VStr "r/phoenix");
           ("link", VStr "1")];
    VStr "https://redd.it/a" ].

Definition sample_lead (link found_at : string) : dict :=
  [ ("title", VStr "Need a website"); ("subreddit", VStr "r/phoenix");
    ("link", VStr link); ("foundAt", VStr found_at) ].

Definition three_leads : list dict :=
  [ sample_lead "https://redd.it/1" "2024-01-01";
    sample_lead "https://redd.it/2" "2024-03-01";
    sample_lead "https://redd.it/3" "2024-02-01" ].

(** An item of a run-data item list: [{"json": {"title": ..., "link": ...}}]. *)
Definition json_item (title link : string) : value :=
  VDict [("json", VDict [("title", VStr title); ("link", VStr link)])].

(** [{"runData": {"Reddit": [{"data": {"main": [items]}}]}}]. *)
Definition result_data (items : list value) : value :=
  VDict [("runData",
          VDict [("Reddit",
                  VList [VDict [("data", VDict [("main", VList [VList items])])]])])].

(** A payload of both shapes: a [data] array holding a lead in the indexed
    format (its link is the index string "1") and a [resultData.runData]
    mapping holding another lead. *)
Definition both_shapes : dict :=
  [ ("data", VList sample_table);
    ("resultData", result_data [json_item "Web designer wanted" "https://redd.it/b"]) ].

(** A run-data payload whose second item has a number under [json]. *)
Definition partial_payload : value :=
  VDict [("resultData",
          result_data [json_item "Web designer wanted" "https://redd.it/b";
                       VDict [("json", VInt 5)]])].

Definition partial_row : row :=
  {| exec_id := 41; started_at := "2024-05-01T10:00:00.000Z";
     stopped_at := "2024-05-01T10:00:02.000Z"; status := "success";
     data_blob := Parsed partial_payload |}.

Definition store_of (rows : list row) : store :=
  {| connect := Returns tt; cursor := Returns tt; execute := Returns tt;
     fetchall := Returns rows; close := Returns tt |}.

(** A database file that opens but has no execution tables. *)
Definition missing_table_store : store :=
  {| connect := Returns tt; cursor := Returns tt;
     execute := Fails "no such table: execution_entity";
     fetchall := Returns []; close := Returns tt |}.

(** ** The command line (lines 202-214) *)

(** The loop of lines 207-211 over [enumerate(sys.argv[1:])], from index [i]
    on; [None] when [int] raises ValueError, which nothing catches. *)
Fixpoint arg_loop {py : interpreter} (argv : list string) (i : nat)
    (args : list string) (limit offset : Z) : option (Z * Z) :=
  match args with
  | [] => Some (limit, offset)
  | arg :: args' =>
      if (arg =? "--limit") && (i + 2 <? List.length argv)%nat then
        match py_int (nth (i + 2) argv "") with
        | Some n => arg_loop argv (S i) args' n offset
        | None => None
        end
      else if (arg =? "--offset") && (i + 2 <? List.length argv)%nat then
        match py_int (nth (i + 2) argv "") with
        | Some n => arg_loop argv (S i) args' limit n
        | None => None
        end
      else arg_loop argv (S i) args' limit offset
  end.

(** Lines 204-211: the limit and the offset read from [sys.argv]. *)
Definition parse_args {py : interpreter} (argv : list string) : option (Z * Z) :=
  arg_loop argv 0 (tl argv) 50 0.

(** Line 213: the call the script makes, when the arguments parse. *)
Definition main {py : interpreter} (depth : nat) (db : store) (argv : list string)
  : option (list event * result value) :=
  match parse_args argv with
  | Some (limit, offset) => Some (get_leads depth db limit offset)
  | None => None
  end.

Definition is_flag (arg : string) : bool :=
  (arg =? "--limit") || (arg =? "--offset").

(** The loop read on the arguments alone: a flag counts when an argument
    follows it, and the argument after a flag is itself looked at next. *)
Fixpoint scan {py : interpreter} (args : list string) (limit offset : Z)
  : option (Z * Z) :=
  match args with
  | arg :: ((next :: _) as args') =>
      if arg =? "--limit" then
        match py_int next with
        | Some n => scan args' n offset
        | None => None
        end
      else if arg =? "--offset" then
        match py_int next with
        | Some n => scan args' limit n
        | None => None
        end
      else scan args' limit offset
  | _ => Some (limit, offset)
  end.

(** The limit and the offset after flag/value pairs: the last value of each
    flag, the start value if the flag does not occur. *)
Fixpoint last_values {py : interpreter} (pairs : list (string * string))
    (limit offset : Z) : Z * Z :=
  match pairs with
  | [] => (limit, offset)
  | (flag, text) :: pairs' =>
      match py_int text with
      | Some n =>
          if flag =? "--limit" then last_values pairs' n offset
          else if flag =? "--offset" then last_values pairs' limit n
          else last_values pairs' limit offset
      | None => last_values pairs' limit offset
      end
  end.

(** A flag and a value: the value is no flag and [int] converts it. *)
Definition well_formed_pair {py : interpreter} (p : string * string) : Prop :=
  is_flag (fst p) = true /\ is_flag (snd p) = false /\ py_int (snd p) <> None.

(** ** CPython 3.11

    [str.isdigit] and [int] as CPython 3.11 has them: the tables of Unicode
    14.0 and the default limit of 4300 digits on integer conversion.  A text
    is given by its UTF-8 encoding, one byte per character of the [string]
    (an ASCII text is its own encoding).  The sample inputs are run with this
    interpreter. *)

(** A continuation byte of UTF-8 and the six bits it carries. *)
Definition continuation (c : ascii) : option N :=
  if in_range 128 191 c then Some (N.of_nat (code c - 128)) else None.

(** The code points of a text; [None] when the bytes are no UTF-8 (an
    overlong form, a surrogate, a value beyond U+10FFFF included). *)
Fixpoint code_points (s : string) : option (list N) :=
  match s with
  | EmptyString => Some []
  | String c s1 =>
      let b := N.of_nat (code c) in
      if (b <? 128)%N then option_map (cons b) (code_points s1)
      else if (b <? 194)%N then None
      else if (b <? 224)%N then
        match s1 with
        | String c1 s2 =>
            match continuation c1 with
            | Some x1 => option_map (cons ((b - 192) * 64 + x1)%N) (code_points s2)
            | None => None
            end
        | _ => None
        end
      else if (b <? 240)%N then
        match s1 with
        | String c1 (String c2 s3) =>
            match continuation c1, continuation c2 with
            | Some x1, Some x2 =>
                let cp := ((b - 224) * 4096 + x1 * 64 + x2)%N in
                if ((2048 <=? cp) && negb ((55296 <=? cp) && (cp <=? 57343)))%N
                then option_map (cons cp) (code_points s3)
                else None
            | _, _ => None
            end
        | _ => None
        end
      else if (b <? 245)%N then
        match s1 with
        | String c1 (String c2 (String c3 s4)) =>
            match continuation c1, continuation c2, continuation c3 with
            | Some x1, Some x2, Some x3 =>
                let cp := ((b - 240) * 262144 + x1 * 4096 + x2 * 64 + x3)%N in
                if ((65536 <=? cp) && (cp <=? 1114111))%N
                then option_map (cons cp) (code_points s4)
                else None
            | _, _, _ => None
            end
        | _ => None
        end
      else None
  end.

(** The zero of each script's decimal digits (general category Nd): the ten
    digits of a script follow one another from its zero. *)
Definition decimal_zeros : list N :=
  [
    48; 1632; 1776; 1984; 2406; 2534; 2662; 2790; 2918; 3046; 3174; 3302;
    3430; 3558; 3664; 3792; 3872; 4160; 4240; 6112; 6160; 6470; 6608; 6784;
    6800; 6992; 7088; 7232; 7248; 42528; 43216; 43264; 43472; 43504; 43600;
    44016; 65296; 66720; 68912; 69734; 69872; 69942; 70096; 70384; 70736;
    70864; 71248; 71360; 71472; 71904; 72016; 72784; 73040; 73120; 92768;
    92864; 93008; 120782; 120792; 120802; 120812; 120822; 123200; 123632;
    125264; 130032 ]%N.

(** [unicodedata.decimal]: the value of a decimal digit. *)
Definition decimal_value (cp : N) : option N :=
  match find (fun zero => (zero <=? cp) && (cp <? zero + 10))%N decimal_zeros with
  | Some zero => Some (cp - zero)%N
  | None => None
  end.

Definition in_ranges (ranges : list (N * N)) (cp : N) : bool :=
  existsb (fun r => (fst r <=? cp) && (cp <=? snd r))%N ranges.

(** The digits that are no decimals: superscripts, subscripts, circled and
    parenthesized digits and the like. *)
Definition other_digits : list (N * N) :=
  [
    (178, 179); (185, 185); (4969, 4977); (6618, 6618); (8304, 8304);
    (8308, 8313); (8320, 8329); (9312, 9320); (9332, 9340); (9352, 9360);
    (9450, 9450); (9461, 9469); (9471, 9471); (10102, 10110); (10112, 10120);
    (10122, 10130); (68160, 68163); (69216, 69224); (69714, 69722);
    (127232, 127242) ]%N.

(** The whitespace beyond ASCII. *)
Definition unicode_spaces : list (N * N) :=
  [
    (133, 133); (160, 160); (5760, 5760); (8192, 8202); (8232, 8233);
    (8239, 8239); (8287, 8287); (12288, 12288) ]%N.

Definition is_unicode_digit (cp : N) : bool :=
  match decimal_value cp with
  | Some _ => true
  | None => in_ranges other_digits cp
  end.

(** [s.isdigit()]: at least one character, digits only. *)
Definition cpython_isdigit (s : string) : bool :=
  match code_points s with
  | Some (cp :: cps) => forallb is_unicode_digit (cp :: cps)
  | _ => false
  end.

(** What [int] makes of a text before it reads it: a decimal digit of any
    script becomes its ASCII digit and a whitespace beyond ASCII a space;
    any other character beyond ASCII makes the text invalid. *)
Fixpoint to_ascii (cps : list N) : option string :=
  match cps with
  | [] => Some EmptyString
  | cp :: cps' =>
      let ch :=
        if (cp <? 128)%N then Some cp
        else if in_ranges unicode_spaces cp then Some 32%N
        else option_map (N.add 48) (decimal_value cp) in
      match ch, to_ascii cps' with
      | Some n, Some t => Some (String (ascii_of_N n) t)
      | _, _ => None
      end
  end.

(** The whitespace [int] skips around an ASCII literal: tab to carriage
    return and the space. *)
Definition is_c_space (c : ascii) : bool :=
  in_range 9 13 c || (code c =? 32)%nat.

Fixpoint skip_left (s : string) : string :=
  match s with
  | EmptyString => EmptyString
  | String c s' => if is_c_space c then skip_left s' else s
  end.

Fixpoint skip_right (s : string) : string :=
  match s with
  | EmptyString => EmptyString
  | String c s' =>
      match skip_right s' with
      | EmptyString => if is_c_space c then EmptyString else String c EmptyString
      | r => String c r
      end
  end.

(** The digits of a literal: at least one, a single underscore allowed
    between two digits.  [after_digit] tells whether the character before is
    a digit. *)
Fixpoint int_digits (acc : N) (after_digit : bool) (s : string) : option N :=
  match s with
  | EmptyString => if after_digit then Some acc else None
  | String c s' =>
      if is_digit c then int_digits (acc * 10 + N.of_nat (code c - 48)) true s'
      else if is_char "_" c && after_digit then int_digits acc false s'
      else None
  end.

Fixpoint count_digits (s : string) : nat :=
  match s with
  | EmptyString => 0
  | String c s' => if is_digit c then S (count_digits s') else count_digits s'
  end.

(** [sys.get_int_max_str_digits()], by default. *)
Definition max_str_digits : nat := 4300.

(** The digits after the sign: ValueError beyond the limit, leading zeros
    counted, underscores not. *)
Definition int_magnitude (digits : string) : option N :=
  if (count_digits digits <=? max_str_digits)%nat
  then int_digits 0 false digits
  else None.

(** [int(s)] on an ASCII text. *)
Definition ascii_int (s : string) : option Z :=
  match skip_right (skip_left s) with
  | String "+" digits => option_map Z.of_N (int_magnitude digits)
  | String "-" digits => option_map (fun n => (- Z.of_N n)%Z) (int_magnitude digits)
  | digits => option_map Z.of_N (int_magnitude digits)
  end.

(** [int(s)]. *)
Definition cpython_int (s : string) : option Z :=
  match code_points s with
  | Some cps =>
      match to_ascii cps with
      | Some text => ascii_int text
      | None => None
      end
  | None => None
  end.

Definition cpython : interpreter :=
  {| isdigit := cpython_isdigit;
     int_of := fun s => option_map Z.to_N (cpython_int s);
     py_int := cpython_int |}.

(** The string holds ASCII decimal digits only. *)
Fixpoint all_digits (s : string) : bool :=
  match s with
  | EmptyString => true
  | String c s' => is_digit c && all_digits s'
  end.

(** The number a string of ASCII digits writes. *)
Fixpoint int_from (acc : N) (s : string) : N :=
  match s with
  | EmptyString => acc
  | String c s' => int_from (acc * 10 + N.of_nat (code c - 48)) s'
  end.

(** [digit * n]. *)
Fixpoint copies (n : nat) (digit : ascii) : string :=
  match n with
  | O => EmptyString
  | S n' => String digit (copies n' digit)
  end.

(** ** Notions the further properties are stated with *)

(** A lead of row [r] as get_leads collects it. *)
Definition collected (r : row) (lead : dict) : Prop :=
  tagged r lead /\ dict_has lead "title" = true /\ dict_has lead "link" = true.

(** The store [db] with other rows to fetch. *)
Definition with_rows (db : store) (rows : list row) : store :=
  {| connect := connect db; cursor := cursor db; execute := execute db;
     fetchall := Returns rows; close := close db |}.

(** The five calls get_leads makes on the store, in the order of lines
    85-155. *)
Definition store_calls : list event := [Connect; Cursor; Execute; Fetchall; Close].

(** The call returns, as the store has it. *)
Definition call_returns (db : store) (ev : event) : bool :=
  match ev with
  | Connect => match connect db with Returns _ => true | Fails _ => false end
  | Cursor => match cursor db with Returns _ => true | Fails _ => false end
  | Execute => match execute db with Returns _ => true | Fails _ => false end
  | Fetchall => match fetchall db with Returns _ => true | Fails _ => false end
  | Close => match close db with Returns _ => true | Fails _ => false end
  end.

(** The payload goes to the indexed-array branch. *)
Definition indexed_shape (exec_data : value) : bool :=
  match exec_data with
  | VList _ => true
  | VDict d => dict_has d "data"
  | _ => false
  end.


Definition is_str (v : value) : bool :=
  match v with
  | VStr _ => true
  | _ => false
  end.

(** The fields of a normalized lead, in order. *)
Definition normalized_fields : list string :=
  [ "id"; "title"; "subreddit"; "author"; "link"; "content"; "priority";
    "score"; "keywords"; "location"; "foundAt"; "pubDate" ].

(** [s[n:]]. *)
Fixpoint drop (n : nat) (s : string) : string :=
  match n, s with
  | O, _ => s
  | S n', String _ s' => drop n' s'
  | S _, EmptyString => EmptyString
  end.

(** The string holds a [>]. *)
Fixpoint has_gt (s : string) : bool :=
  match s with
  | EmptyString => false
  | String c s' => is_char ">" c || has_gt s'
  end.

(** No [<] of the string has a [>] anywhere after it: the string holds no
    span that the pattern [<[^>]*>] matches. *)
Fixpoint tag_free (s : string) : bool :=
  match s with
  | EmptyString => true
  | String c s' => (negb (is_char "<" c) || negb (has_gt s')) && tag_free s'
  end.

(** What follows the first [>]. *)
Fixpoint after_gt (s : string) : option string :=
  match s with
  | EmptyString => None
  | String c s' => if is_char ">" c then Some s' else after_gt s'
  end.

(** [out] is [s] with characters removed and spaces put in. *)
Inductive thinned : string -> string -> Prop :=
| thinned_nil : thinned EmptyString EmptyString
| thinned_keep c out s : thinned out s -> thinned (String c out) (String c s)
| thinned_drop c out s : thinned out s -> thinned out (String c s)
| thinned_space out s : thinned out s -> thinned (String " " out) s.

(** Whitespace in normal form from here on: every whitespace character is a
    single space, not next to another one ([after_space]: the character
    before is a space, or the string starts here). *)
Fixpoint tidy_from (after_space : bool) (s : string) : bool :=
  match s with
  | EmptyString => true
  | String c s' =>
      if is_space c then is_char " " c && negb after_space && tidy_from true s'
      else tidy_from false s'
  end.

Fixpoint ends_in_space (s : string) : bool :=
  match s with
  | EmptyString => false
  | String c EmptyString => is_space c
  | String _ s' => ends_in_space s'
  end.

(** No whitespace at either end, single spaces inside. *)
Definition tidy (s : string) : bool := tidy_from true s && negb (ends_in_space s).

Definition starts_unspaced (s : string) : bool :=
  match s with
  | EmptyString => true
  | String c _ => negb (is_space c)
  end.

(** * Properties *)

(** ** Induction on values *)

Section value_induction.
Variable P : value -> Prop.
Hypothesis P_none : P VNone.
Hypothesis P_bool : forall b, P (VBool b).
Hypothesis P_int : forall n, P (VInt n).
Hypothesis P_str : forall s, P (VStr s).
Hypothesis P_list : forall items, Forall P items -> P (VList items).
Hypothesis P_dict :
  forall items, Forall (fun kv => P (snd kv)) items -> P (VDict items).

Fixpoint value_nested_ind (v : value) : P v :=
  match v with
  | VNone => P_none
  | VBool b => P_bool b
  | VInt n => P_int n
  | VStr s => P_str s
  | VList items =>
      P_list items
        ((fix all (l : list value) : Forall P l :=
            match l with
            | [] => Forall_nil P
            | x :: l' => Forall_cons x (value_nested_ind x) (all l')
            end) items)
  | VDict items =>
      P_dict items
        ((fix all (l : list (string * value)) : Forall (fun kv => P (snd kv)) l :=
            match l with
            | [] => Forall_nil _
            | kv :: l' => Forall_cons kv (value_nested_ind (snd kv)) (all l')
            end) items)
  end.
End value_induction.

(** ** Loops that may raise *)

Lemma rmap_impl {A B} (f g : A -> result B) (l : list A) (ys : list B) :
  (forall x y, In x l -> f x = Ok y -> g x = Ok y) ->
  rmap f l = Ok ys -> rmap g l = Ok ys.
Proof.
  revert ys. induction l as [|x l IH]; intros ys Hfg H; simpl in *; auto.
  destruct (f x) as [y|] eqn:Ex; [|discriminate].
  destruct (rmap f l) as [ys'|] eqn:El; [|discriminate].
  rewrite (Hfg x y (or_introl eq_refl) Ex).
  rewrite (IH ys'); auto.
Qed.

Lemma rmap_length {A B} (f : A -> result B) (l : list A) (ys : list B) :
  rmap f l = Ok ys -> List.length ys = List.length l.
Proof.
  revert ys. induction l as [|x l IH]; intros ys H; simpl in H.
  - inversion H. reflexivity.
  - destruct (f x); [|discriminate].
    destruct (rmap f l) as [ys'|]; [|discriminate].
    inversion H. simpl. rewrite (IH ys' eq_refl). reflexivity.
Qed.

Lemma rmap_raise {A B} (f : A -> result B) (l : list A) (e : exc) :
  rmap f l = Raise e -> Exists (fun x => f x = Raise e) l.
Proof.
  induction l as [|x l IH]; intros H; simpl in H; [discriminate|].
  destruct (f x) as [y|e'] eqn:Ex.
  - destruct (rmap f l) as [ys|e'']; [discriminate|].
    inversion H; subst. apply Exists_cons_tl. apply IH. reflexivity.
  - inversion H; subst. apply Exists_cons_hd. exact Ex.
Qed.

(** A loop whose body does not run out of recursion depth gives the same
    with any body that agrees with it where it does not. *)
Lemma rmap_stable {A B} (f g : A -> result B) (l : list A) :
  (forall x, In x l -> f x <> Raise RecursionError -> g x = f x) ->
  rmap f l <> Raise RecursionError ->
  rmap g l = rmap f l.
Proof.
  induction l as [|x l IH]; intros Hfg Hne; simpl in *; [reflexivity|].
  destruct (f x) as [y|e] eqn:Ex.
  - assert (Hg : g x = Ok y).
    { rewrite <- Ex. apply Hfg; [left; reflexivity|]. rewrite Ex. discriminate. }
    rewrite Hg, IH; [reflexivity| |].
    + intros z Hz. apply Hfg. right. exact Hz.
    + intros Hr. rewrite Hr in Hne. apply Hne. reflexivity.
  - assert (Hg : g x = Raise e).
    { rewrite <- Ex. apply Hfg; [left; reflexivity|]. rewrite Ex.
      intros H. apply Hne. congruence. }
    rewrite Hg. reflexivity.
Qed.

Lemma rmap_settled {A B} (f : A -> result B) (l : list A) :
  (forall x, In x l -> f x <> Raise RecursionError) ->
  rmap f l <> Raise RecursionError.
Proof.
  induction l as [|x l IH]; intros Hf; simpl; [discriminate|].
  pose proof (Hf x (or_introl eq_refl)) as Hx.
  destruct (f x) as [y|e]; [|intros H; apply Hx; congruence].
  assert (Hl : rmap f l <> Raise RecursionError).
  { apply IH. intros z Hz. apply Hf. right. exact Hz. }
  destruct (rmap f l); [discriminate|intros H; apply Hl; congruence].
Qed.

(** ** deref *)

Section deref_facts.
Context {py : interpreter}.

(** Once the depth allowed is enough for [deref] to return or for [int] to
    raise, a greater depth gives the same. *)
Lemma deref_stable (data : list value) :
  forall d d' v,
    deref d v data <> Raise RecursionError -> d <= d' ->
    deref d' v data = deref d v data.
Proof.
  induction d as [|d IH]; intros d' v Hne Hle; [exfalso; apply Hne; reflexivity|].
  destruct d' as [|d']; [lia|].
  assert (Hd : d <= d') by lia.
  simpl in *. destruct v as [| b | n | s | items | items]; auto.
  - destruct (isdigit s); auto.
    destruct (int_of s) as [idx|]; auto.
    destruct (idx <? N.of_nat (List.length data))%N; auto.
  - rewrite (rmap_stable (fun v => deref d v data) (fun v => deref d' v data));
      [reflexivity| |].
    + intros x _ Hx. apply IH; assumption.
    + intros Hr. rewrite Hr in Hne. apply Hne. reflexivity.
  - match goal with
    | |- match rmap ?g items with _ => _ end = match rmap ?f items with _ => _ end =>
        rewrite (rmap_stable f g); [reflexivity| |]
    end.
    + intros [k x] _ Hx. simpl in *.
      rewrite IH; [reflexivity| |exact Hd].
      intros Hr. rewrite Hr in Hx. apply Hx. reflexivity.
    + intros Hr. rewrite Hr in Hne. apply Hne. reflexivity.
Qed.

(** A result does not depend on the depth allowed, once it is enough. *)
Lemma deref_mono (data : list value) :
  forall d d' v r, deref d v data = Ok r -> d <= d' -> deref d' v data = Ok r.
Proof.
  intros d d' v r H Hle.
  rewrite (deref_stable data d d' v); [exact H| |exact Hle].
  rewrite H. discriminate.
Qed.

(** The exceptions [deref] raises: its own RecursionError and the ValueError
    of [int]. *)
Lemma deref_raises (data : list value) :
  forall depth v e,
    deref depth v data = Raise e -> e = RecursionError \/ e = ValueError.
Proof.
  induction depth as [|depth IH]; intros v e H; simpl in H; [left; congruence|].
  destruct v as [| b | n | s | items | items]; try discriminate.
  - destruct (isdigit s); [|discriminate].
    destruct (int_of s) as [idx|]; [|right; congruence].
    destruct (idx <? N.of_nat (List.length data))%N; [|discriminate].
    exact (IH _ _ H).
  - destruct (rmap (fun v => deref depth v data) items) as [ys|e'] eqn:E;
      [discriminate|].
    inversion H; subst. apply rmap_raise in E. apply Exists_exists in E.
    destruct E as [x [_ Hx]]. exact (IH _ _ Hx).
  - match type of H with
    | match rmap ?f items with _ => _ end = _ =>
        destruct (rmap f items) as [ys|e'] eqn:E; [discriminate|]
    end.
    inversion H; subst. apply rmap_raise in E. apply Exists_exists in E.
    destruct E as [[k x] [_ Hx]]. simpl in Hx.
    destruct (deref depth x data) as [w|e''] eqn:Ex; [discriminate|].
    inversion Hx; subst. exact (IH _ _ Ex).
Qed.

Lemma deref_settles_all (data : list value) (items : list value) :
  Forall (terminates data) items ->
  exists d, forall x, In x items -> deref d x data <> Raise RecursionError.
Proof.
  induction 1 as [|x l [d Hx] _ [d' Hl]].
  - exists 0. intros x [].
  - exists (Nat.max d d'). intros y [<-|Hy].
    + rewrite (deref_stable data d); [exact Hx|exact Hx|apply Nat.le_max_l].
    + rewrite (deref_stable data d');
        [apply Hl; exact Hy|apply Hl; exact Hy|apply Nat.le_max_r].
Qed.

(** [deref] ends on a value as soon as it ends on the entries the value
    mentions. *)
Lemma terminates_of_mentions (data : list value) :
  forall v,
    (forall j, mentions data v j -> terminates data (nth j data VNone)) ->
    terminates data v.
Proof.
  induction v as [| b | n | s | items IH | items IH] using value_nested_ind;
    intros Hm; try (exists 1; simpl; discriminate).
  - destruct (isdigit s) eqn:Ed; [|exists 1; simpl; rewrite Ed; discriminate].
    destruct (int_of s) as [idx|] eqn:En;
      [|exists 1; simpl; rewrite Ed, En; discriminate].
    destruct (idx <? N.of_nat (List.length data))%N eqn:Ei;
      [|exists 1; simpl; rewrite Ed, En, Ei; discriminate].
    destruct (Hm _ (mentions_str data s idx Ed En (proj1 (N.ltb_lt _ _) Ei)))
      as [d Hd].
    exists (S d). simpl. rewrite Ed, En, Ei. exact Hd.
  - assert (Hall : Forall (terminates data) items).
    { rewrite Forall_forall in *. intros x Hx. apply (IH x Hx).
      intros j Hj. apply Hm. econstructor; eauto. }
    destruct (deref_settles_all data items Hall) as [d Hd].
    exists (S d). simpl.
    pose proof (rmap_settled (fun v => deref d v data) items Hd) as Hr.
    destruct (rmap (fun v => deref d v data) items);
      [discriminate|intros H; apply Hr; congruence].
  - assert (Hall : Forall (terminates data) (map snd items)).
    { apply Forall_map. rewrite Forall_forall in *. intros [k x] Hx.
      apply (IH (k, x) Hx). intros j Hj. apply Hm. econstructor; eauto. }
    destruct (deref_settles_all data (map snd items) Hall) as [d Hd].
    exists (S d). simpl.
    match goal with
    | |- match rmap ?f items with _ => _ end <> _ =>
        pose proof (rmap_settled f items) as Hr; destruct (rmap f items)
    end; [discriminate|].
    intros H. apply Hr; [|congruence].
    intros [k x] Hx. simpl.
    pose proof (Hd x (in_map snd _ _ Hx)) as Hx'.
    destruct (deref d x data); [discriminate|intros H'; apply Hx'; congruence].
Qed.

Lemma mentions_lt (data : list value) (v : value) (j : nat) :
  mentions data v j -> j < List.length data.
Proof.
  induction 1; auto. lia.
Qed.

(** The walk from entry to entry: [visited] holds distinct entries that all
    lead to [i]; in an acyclic table [i] is not among them, so the walk is
    no longer than the table. *)
Lemma entry_terminates (data : list value) :
  acyclic data ->
  forall k visited i,
    List.length data <= List.length visited + k ->
    NoDup visited ->
    (forall x, In x visited -> x < List.length data) ->
    (forall x, In x visited -> clos_trans nat (refers data) x i) ->
    i < List.length data ->
    terminates data (nth i data VNone).
Proof.
  intros Hac.
  assert (Hfresh : forall visited i,
             (forall x, In x visited -> clos_trans nat (refers data) x i) ->
             ~ In i visited).
  { intros visited i Hreach Hin. exact (Hac i (Hreach i Hin)). }
  assert (Hlen : forall visited i,
             NoDup visited -> ~ In i visited ->
             (forall x, In x visited -> x < List.length data) ->
             i < List.length data ->
             S (List.length visited) <= List.length data).
  { intros visited i Hnd Hni Hlt Hi.
    rewrite <- (length_seq (List.length data) 0).
    apply (NoDup_incl_length (l := i :: visited)).
    - constructor; assumption.
    - intros x [<-|Hx]; apply in_seq; [lia|]. specialize (Hlt x Hx). lia. }
  induction k as [|k IH]; intros visited i Hk Hnd Hlt Hreach Hi.
  - specialize (Hlen visited i Hnd (Hfresh _ _ Hreach) Hlt Hi). lia.
  - apply terminates_of_mentions. intros j Hj.
    assert (Hij : refers data i j) by (split; assumption).
    apply (IH (i :: visited)).
    + simpl. lia.
    + constructor; [apply (Hfresh _ _ Hreach)|assumption].
    + intros x [<-|Hx]; auto.
    + intros x [<-|Hx]; [apply t_step; assumption|].
      apply t_trans with i; [apply Hreach; assumption|apply t_step; assumption].
    + apply (mentions_lt data _ _ Hj).
Qed.

(** C9 (amended): for a table T and a string s that str.isdigit accepts:
    when int(s) returns an index i below len(T), deref(s, T) is
    deref(T[i], T) (the call on s is one call deeper than the call on T[i]
    and returns what that one returns, so the two have the same results and
    the same lack of one); when int(s) raises ValueError, so does
    deref(s, T), whatever T holds. *)
Theorem deref_index_string (T : list value) (s : string) :
  isdigit s = true ->
  match int_of s with
  | Some i =>
      (i < N.of_nat (List.length T))%N ->
      (forall depth,
         deref (S depth) (VStr s) T = deref depth (nth (N.to_nat i) T VNone) T)
      /\ (forall r,
            (exists depth, deref depth (VStr s) T = Ok r)
            <-> (exists depth, deref depth (nth (N.to_nat i) T VNone) T = Ok r))
  | None => forall depth, deref (S depth) (VStr s) T = Raise ValueError
  end.
Proof.
  intros Hd. destruct (int_of s) as [i|] eqn:En.
  - intros Hi.
    assert (Hstep : forall depth,
       deref (S depth) (VStr s) T = deref depth (nth (N.to_nat i) T VNone) T).
    { intros depth. simpl. rewrite Hd, En.
      rewrite (proj2 (N.ltb_lt _ _) Hi). reflexivity. }
    split; [exact Hstep|].
    intros r; split; intros [depth H].
    + destruct depth as [|depth]; [discriminate|].
      exists depth. rewrite <- Hstep. exact H.
    + exists (S depth). rewrite Hstep. exact H.
  - intros depth. simpl. rewrite Hd, En. reflexivity.
Qed.

(** C10: on an acyclic table deref terminates on every value: some depth of
    recursion is enough for it to end, by returning a value or by the
    ValueError of int, and every greater depth ends the same way. *)
Theorem deref_terminates_acyclic (data : list value) :
  acyclic data ->
  forall val,
    exists depth outcome,
      ((exists r, outcome = Ok r) \/ outcome = Raise ValueError)
      /\ forall depth', depth <= depth' -> deref depth' val data = outcome.
Proof.
  intros Hac val.
  assert (Ht : terminates data val).
  { apply terminates_of_mentions. intros j Hj.
    apply (entry_terminates data Hac (List.length data) [] j).
    - simpl. lia.
    - constructor.
    - intros x [].
    - intros x [].
    - apply (mentions_lt data _ _ Hj). }
  destruct Ht as [d Hd].
  exists d, (deref d val data). split.
  - destruct (deref d val data) as [r|e] eqn:E; [left; exists r; reflexivity|right].
    destruct (deref_raises data _ _ _ E) as [->| ->]; [|reflexivity].
    exfalso. apply Hd. reflexivity.
  - intros d' Hle. apply deref_stable; assumption.
Qed.

Lemma mentions_refs_of (data : list value) (v : value) (j : nat) :
  mentions data v j -> In j (refs_of (N.of_nat (List.length data)) v).
Proof.
  induction 1 as [s idx Hd Hn Hi | items v j Hin _ IH | items k v j Hin _ IH]; simpl.
  - rewrite Hd, Hn, (proj2 (N.ltb_lt _ _) Hi). left. reflexivity.
  - apply in_flat_map. exists v. split; assumption.
  - apply in_flat_map. exists (k, v). split; assumption.
Qed.

Lemma cycle_step (data : list value) (i : nat) :
  clos_trans nat (refers data) i i ->
  exists j, refers data i j /\ clos_trans nat (refers data) j j.
Proof.
  intros H. pose proof H as Hc.
  apply clos_trans_t1n in H. inversion H as [y Hy | y z Hy Hrest]; subst.
  - exists i. split; assumption.
  - exists y. split; [exact Hy|].
    apply clos_t1n_trans in Hrest.
    apply t_trans with i; [exact Hrest|apply t_step; exact Hy].
Qed.

Lemma chain_on_cycle (data : list value) :
  forall k i, clos_trans nat (refers data) i i -> chain_free data k i = false.
Proof.
  induction k as [|k IH]; intros i Hc; [reflexivity|].
  destruct (cycle_step data i Hc) as [j [[_ Hm] Hj]].
  simpl. apply not_true_is_false. intros Hall.
  rewrite forallb_forall in Hall.
  specialize (Hall j (mentions_refs_of data _ _ Hm)).
  rewrite (IH j Hj) in Hall. discriminate.
Qed.

(** The check is sound. *)
Lemma acyclicb_sound (data : list value) : acyclicb data = true -> acyclic data.
Proof.
  unfold acyclicb. intros Hall i Hc.
  rewrite forallb_forall in Hall.
  assert (Hi : i < List.length data).
  { destruct (cycle_step data i Hc) as [j [[Hlt _] _]]. exact Hlt. }
  specialize (Hall i (proj2 (in_seq _ _ _) (conj (Nat.le_0_l i) Hi))).
  rewrite (chain_on_cycle data _ i Hc) in Hall. discriminate.
Qed.

End deref_facts.

Lemma deref_index_string_witness :
  isdigit (interpreter := cpython) "1" = true
  /\ (1 < N.of_nat (List.length sample_table))%N
  /\ (forall depth,
        deref (py := cpython) (S depth) (VStr "1") sample_table
        = deref (py := cpython) depth (nth 1 sample_table VNone) sample_table)
  /\ (forall r,
        (exists depth,
            deref (py := cpython) depth (VStr "1") sample_table = Ok r)
        <-> (exists depth,
               deref (py := cpython) depth (nth 1 sample_table VNone) sample_table
               = Ok r)).
Proof.
  split; [reflexivity|]. split; [reflexivity|].
  exact (deref_index_string (py := cpython) sample_table "1" eq_refl eq_refl).
Defined.

(** C9 (as stated, refuted): the string of 4301 zeros consists of decimal
    digits only and its value 0 is an index of the table ['x'], yet deref
    does not return on it what it returns on entry 0: int raises ValueError
    on more than 4300 digits, and deref with it, at every depth. *)
Lemma deref_index_string_over_limit :
  all_digits (copies 4301 "0") = true
  /\ int_from 0 (copies 4301 "0") = 0%N
  /\ (0 < N.of_nat (List.length [VStr "x"]))%N
  /\ deref (py := cpython) 5 (nth 0 [VStr "x"] VNone) [VStr "x"] = Ok (VStr "x")
  /\ deref (py := cpython) 6 (VStr (copies 4301 "0")) [VStr "x"] = Raise ValueError
  /\ forall depth r,
       deref (py := cpython) depth (VStr (copies 4301 "0")) [VStr "x"] <> Ok r.
Proof.
  split; [vm_compute; reflexivity|].
  split; [vm_compute; reflexivity|].
  split; [reflexivity|].
  split; [reflexivity|].
  split; [vm_compute; reflexivity|].
  intros [|depth] r; [discriminate|].
  vm_compute. discriminate.
Qed.

Lemma deref_terminates_acyclic_witness :
  acyclic (py := cpython) sample_table
  /\ exists depth outcome,
       ((exists r, outcome = Ok r) \/ outcome = Raise ValueError)
       /\ forall depth', depth <= depth' ->
            deref (py := cpython) depth' (nth 0 sample_table VNone) sample_table
            = outcome.
Proof.
  split.
  - apply acyclicb_sound. reflexivity.
  - apply (deref_terminates_acyclic (py := cpython) sample_table
             (acyclicb_sound (py := cpython) sample_table eq_refl)
             (nth 0 sample_table VNone)).
Defined.

(** Without the precondition: an entry that refers to itself exhausts every
    depth. *)
Example deref_self_reference (depth : nat) :
  deref (py := cpython) depth (VStr "0") [VStr "0"] = Raise RecursionError.
Proof.
  induction depth as [|depth IH]; [reflexivity|exact IH].
Qed.

(** ** The text cleaner *)

Lemma star_greedy_consumes (cls : ascii -> bool)
    (k : bool -> string -> option string) (n : nat) :
  (forall prev s rest, k prev s = Some rest ->
                       String.length rest + n <= String.length s) ->
  forall s prev rest,
    star_greedy cls k prev s = Some rest ->
    String.length rest + n <= String.length s.
Proof.
  intros Hk. induction s as [|c s IH]; intros prev rest H; simpl in H.
  - exact (Hk _ _ _ H).
  - destruct (cls c); [|exact (Hk _ _ _ H)].
    destruct (star_greedy cls k (is_word c) s) as [r|] eqn:E.
    + inversion H; subst. specialize (IH _ _ E). simpl. lia.
    + exact (Hk _ _ _ H).
Qed.

Lemma star_lazy_consumes (cls : ascii -> bool)
    (k : bool -> string -> option string) (n : nat) :
  (forall prev s rest, k prev s = Some rest ->
                       String.length rest + n <= String.length s) ->
  forall s prev rest,
    star_lazy cls k prev s = Some rest ->
    String.length rest + n <= String.length s.
Proof.
  intros Hk. induction s as [|c s IH]; intros prev rest H; simpl in H.
  - destruct (k prev "") as [r|] eqn:E; [|discriminate].
    inversion H; subst. exact (Hk _ _ _ E).
  - destruct (k prev (String c s)) as [r|] eqn:E.
    + inversion H; subst. exact (Hk _ _ _ E).
    + destruct (cls c); [|discriminate]. specialize (IH _ _ H). simpl. lia.
Qed.

(** A match consumes at least [min_len] characters. *)
Lemma match_here_consumes (re : regex) :
  forall prev s rest,
    match_here re prev s = Some rest ->
    String.length rest + min_len re <= String.length s.
Proof.
  induction re as [|a re IH]; intros prev s rest H; simpl in H.
  - inversion H; subst. simpl. lia.
  - destruct a as [x | cls | cls | cls | cls | ]; simpl.
    + destruct s as [|c s]; [discriminate|].
      destruct (Ascii.eqb x c); [|discriminate]. specialize (IH _ _ _ H). simpl. lia.
    + destruct s as [|c s]; [discriminate|].
      destruct (cls c); [|discriminate]. specialize (IH _ _ _ H). simpl. lia.
    + exact (star_greedy_consumes cls _ _ IH _ _ _ H).
    + exact (star_lazy_consumes cls _ _ IH _ _ _ H).
    + destruct s as [|c s]; [discriminate|].
      destruct (cls c); [|discriminate].
      pose proof (star_greedy_consumes cls _ _ IH _ _ _ H). simpl. lia.
    + destruct (xorb prev (next_is_word s)); [|discriminate]. exact (IH _ _ _ H).
Qed.

(** No pattern of the cleaner matches the empty string. *)
Lemma cleaner_patterns_consume :
  Forall (fun re => 1 <= min_len re) cleaner_patterns.
Proof.
  repeat constructor.
Qed.

(** C2 (as stated, refuted): the cleaner does not return "Hello welcome" on
    the sample string. *)
Lemma clean_sample_not_hello_welcome :
  clean_html_content (VStr "<p>Hello &amp; welcome [link] submitted by bob</p>")
  <> Ok "Hello welcome".
Proof.
  vm_compute. discriminate.
Qed.

(** C2 (amended): on "<p>Hello &amp; welcome [link] submitted by bob</p>" the
    cleaner returns "Hello welcome bob": the tags, the entity, "[link]" and
    the phrase "submitted by" are removed, the name after the phrase stays. *)
Theorem clean_sample_keeps_author :
  clean_html_content (VStr "<p>Hello &amp; welcome [link] submitted by bob</p>")
  = Ok "Hello welcome bob".
Proof.
  vm_compute. reflexivity.
Qed.

(** ** The lead locator *)

Lemma ebind_eret {A B} (a : A) (f : A -> emit B) : ebind (eret a) f = f a.
Proof.
  unfold ebind, eret. destruct (f a). reflexivity.
Qed.

Lemma ebind_unit_then_none (m : emit unit) (f : value -> emit unit) :
  f VNone = eret tt ->
  ebind (ebind m (fun _ => eret VNone)) f = m.
Proof.
  intros Hf. destruct m as [out [[]|e]]; simpl; [|reflexivity].
  rewrite Hf. simpl. rewrite !app_nil_r. reflexivity.
Qed.

Lemma dict_lookup_set_same (d : dict) (key : string) (v : value) :
  dict_lookup (dict_set d key v) key = Some v.
Proof.
  induction d as [|[k w] d IH]; simpl.
  - rewrite String.eqb_refl. reflexivity.
  - destruct (k =? key) eqn:E; simpl; rewrite E; auto.
Qed.

Lemma dict_lookup_set_other (d : dict) (key key' : string) (v : value) :
  key <> key' -> dict_lookup (dict_set d key v) key' = dict_lookup d key'.
Proof.
  intros Hne. induction d as [|[k w] d IH]; simpl.
  - rewrite (proj2 (String.eqb_neq _ _) Hne). reflexivity.
  - destruct (k =? key) eqn:E; simpl.
    + apply String.eqb_eq in E. subst k.
      rewrite (proj2 (String.eqb_neq _ _) Hne). reflexivity.
    + destruct (k =? key'); auto.
Qed.

(** What holds of every lead a computation appends. *)
Lemma emits_bind {A B} (P : dict -> Prop) (m : emit A) (f : A -> emit B) :
  Forall P (fst m) -> (forall a, Forall P (fst (f a))) -> Forall P (fst (ebind m f)).
Proof.
  intros Hm Hf. destruct m as [out [a|e]]; simpl in *; [|exact Hm].
  specialize (Hf a). destruct (f a) as [out' r]. simpl in *.
  apply Forall_app. split; assumption.
Qed.

Lemma emits_for {A} (P : dict -> Prop) (xs : list A) (body : A -> emit unit) :
  (forall x, Forall P (fst (body x))) -> Forall P (fst (efor xs body)).
Proof.
  intros Hbody. induction xs as [|x xs IH]; simpl; [constructor|].
  apply emits_bind; auto.
Qed.

Lemma emits_tag (r : row) (lead : value) :
  Forall (tagged r) (fst (tag_and_append (exec_id r) (started_at r) lead)).
Proof.
  destruct lead; simpl; constructor; [|constructor].
  split.
  - rewrite dict_lookup_set_other by discriminate. apply dict_lookup_set_same.
  - apply dict_lookup_set_same.
Qed.

Ltac emits_step :=
  match goal with
  | |- Forall _ (fst (ebind _ _)) => apply emits_bind; [|intros ?]
  | |- Forall _ (fst (efor _ _)) => apply emits_for; intros ?
  | |- Forall _ (fst (tag_and_append _ _ _)) => apply emits_tag
  | |- Forall _ (fst (elift _)) => apply Forall_nil
  | |- Forall _ (fst (eret _)) => apply Forall_nil
  | |- Forall _ (fst (if ?b then _ else _)) => destruct b
  | |- Forall _ (fst (match ?v with _ => _ end)) => destruct v
  end.

Section locator_facts.
Context {py : interpreter}.

(** Every lead of a row carries the row's startedAt as foundAt (a string)
    and its id as executionId, whatever the payload held under these names. *)
Lemma row_leads_tagged (depth : nat) (r : row) :
  Forall (tagged r) (row_leads depth r).
Proof.
  unfold row_leads, row_block, locate_leads, indexed_block, run_data_block,
    run_object, run_item.
  repeat emits_step.
Qed.

Lemma tagged_found_at_key (r : row) (lead : dict) :
  tagged r lead -> found_at_key lead = started_at r.
Proof.
  intros [H _]. unfold found_at_key, dict_get. rewrite H. reflexivity.
Qed.

(** C1 (as stated, refuted): [both_shapes] has a [data] array and a
    [resultData.runData] mapping, each branch finds a lead in its part, and
    the locator does not return the two together, in either order. *)
Lemma both_shapes_not_concatenated :
  let run := fst (run_data_block 41 "2024-05-01" (dict_item both_shapes "resultData")) in
  let indexed :=
    fst (indexed_block (py := cpython) 100 41 "2024-05-01"
           (dict_item both_shapes "data")) in
  let located :=
    fst (locate_leads (py := cpython) 100 41 "2024-05-01" (VDict both_shapes)) in
  List.length run = 1 /\ List.length indexed = 1
  /\ located = indexed
  /\ located <> run ++ indexed /\ located <> indexed ++ run.
Proof.
  vm_compute. repeat split; discriminate.
Qed.

(** C1 (amended): the shapes are tried by an if/elif chain, so exactly one
    branch runs on a payload.  A top-level array, or an object with a [data]
    key, goes to the indexed-array branch only (whatever [resultData]
    holds); an object without [data] but with [resultData] goes to the
    run-data branch only; anything else gives no lead. *)
Theorem locate_leads_single_branch (depth : nat) (exec_id : Z) (started_at : string)
    (exec_data : value) :
  locate_leads depth exec_id started_at exec_data =
    match exec_data with
    | VList _ => indexed_block depth exec_id started_at exec_data
    | VDict d =>
        if dict_has d "data"
        then indexed_block depth exec_id started_at (dict_item d "data")
        else if dict_has d "resultData"
             then run_data_block exec_id started_at (dict_item d "resultData")
             else eret tt
    | _ => eret tt
    end.
Proof.
  unfold locate_leads.
  destruct exec_data as [| b | n | s | items | d]; try (rewrite ebind_eret; reflexivity).
  destruct (dict_has d "data"); [rewrite ebind_eret; reflexivity|].
  destruct (dict_has d "resultData"); [|rewrite ebind_eret; reflexivity].
  apply ebind_unit_then_none. reflexivity.
Qed.

(** ** The orchestrator and the store *)

(** C3 (the code at the failing input): on a store that opens and whose
    query raises, get_leads returns the error envelope having opened the
    connection and without having called close on it. *)
Theorem connection_left_open_on_query_failure :
  let run := get_leads 100 missing_table_store 50 0 in
  snd run = Ok (error_envelope "no such table: execution_entity")
  /\ In Connect (fst run) /\ ~ In Close (fst run).
Proof.
  vm_compute. repeat split; auto.
  intros [H|[H|[]]]; discriminate.
Qed.

(** The connection is opened at most once, and closed when every call on the
    store returns. *)
Lemma one_connection (depth : nat) (db : store) (limit offset : Z) :
  count_occ event_eq_dec (fst (get_leads depth db limit offset)) Connect <= 1.
Proof.
  unfold get_leads.
  destruct (connect db), (cursor db), (execute db), (fetchall db), (close db);
    simpl; lia.
Qed.

Lemma respond_no_error (unique_leads : list dict) (limit offset : Z) (env : dict) :
  respond unique_leads limit offset = Ok (VDict env) -> dict_has env "error" = false.
Proof.
  unfold respond. simpl.
  destruct (rmap normalize (paginate unique_leads limit offset)); simpl; [|discriminate].
  intros H. inversion H. reflexivity.
Qed.

(** When every call on the store returns, what get_leads returns is made
    of the leads of the rows, deduplicated, sorted and paginated. *)
Lemma get_leads_pipeline (depth : nat) (db : store) (limit offset : Z) (rows : list row) :
  store_failure db = None ->
  fetchall db = Returns rows ->
  snd (get_leads depth db limit offset)
  = (unique_leads <- dedup (flat_map (row_leads depth) rows) ;;
     respond (sort_leads unique_leads) limit offset).
Proof.
  unfold get_leads, store_failure. intros Hnone Hrows. rewrite Hrows in *.
  destruct (connect db), (cursor db), (execute db), (close db);
    try discriminate; reflexivity.
Qed.

(** The connection is closed exactly when all five calls return. *)
Lemma closed_iff_calls_return (depth : nat) (db : store) (limit offset : Z) :
  In Close (fst (get_leads depth db limit offset)) <-> store_failure db = None.
Proof.
  unfold get_leads, store_failure.
  destruct (connect db), (cursor db), (execute db), (fetchall db), (close db);
    simpl; split; intros H; try discriminate; try reflexivity;
    repeat (destruct H as [H|H]; try discriminate); try contradiction;
    repeat (try (left; reflexivity); right).
Qed.

(** C4: when a call on the store raises (opening the connection, the cursor,
    the query, fetching the rows, closing), get_leads returns exactly
    {error: message, leads: [], total: 0}; and a returned envelope with an
    [error] field is that one, after such a failure. *)
Theorem error_envelope_iff_store_failure (depth : nat) (db : store) (limit offset : Z) :
  (forall message,
      store_failure db = Some message ->
      snd (get_leads depth db limit offset)
      = Ok (VDict [ ("error", VStr message); ("leads", VList []); ("total", VInt 0) ]))
  /\ (forall env,
        snd (get_leads depth db limit offset) = Ok (VDict env) ->
        dict_has env "error" = true ->
        exists message,
          store_failure db = Some message
          /\ env = [ ("error", VStr message); ("leads", VList []); ("total", VInt 0) ]).
Proof.
  unfold get_leads, store_failure.
  destruct (connect db) as [[]|m1], (cursor db) as [[]|m2], (execute db) as [[]|m3],
           (fetchall db) as [rows|m4], (close db) as [[]|m5]; simpl;
    (split;
     [ intros message H; inversion H; reflexivity
     | intros env H Herr; try (inversion H; subst; eexists; split; reflexivity) ]).
  exfalso. unfold finish in H.
  destruct (dedup (flat_map (row_leads depth) rows)) as [unique|e]; simpl in H;
    [|discriminate].
  rewrite (respond_no_error _ _ _ _ H) in Herr. discriminate.
Qed.

(** What holds of the skip-and-continue policy: an unreadable blob gives no
    lead, the indexed-array branch appends all its leads or none, and each
    row adds its leads to those of the others. *)
Lemma unreadable_row_no_leads (depth : nat) (r : row) (e : exc) :
  data_blob r = Unreadable e -> row_leads depth r = [].
Proof.
  intros H. unfold row_leads, row_block. rewrite H. reflexivity.
Qed.

Lemma deref_dict (depth : nat) (d : dict) (data : list value) (r : value) :
  deref depth (VDict d) data = Ok r -> exists d', r = VDict d'.
Proof.
  destruct depth as [|depth]; simpl; [discriminate|].
  match goal with
  | |- match rmap ?f d with _ => _ end = _ -> _ => destruct (rmap f d) as [d'|]
  end; [|discriminate].
  intros H. inversion H. exists d'. reflexivity.
Qed.

Lemma extract_loop_dicts (depth : nat) (data : list value) :
  forall items leads,
    extract_loop depth data items = Ok leads ->
    Forall (fun lead => exists d, lead = VDict d) leads.
Proof.
  induction items as [|item items IH]; intros leads H; simpl in H.
  - inversion H. constructor.
  - destruct (looks_like_lead item) eqn:Hlook; [|exact (IH _ H)].
    destruct item as [| | | | |d]; try discriminate.
    destruct (deref depth (VDict d) data) as [lead|] eqn:Hd; [|discriminate].
    simpl in H.
    destruct (extract_loop depth data items) as [rest|]; [|discriminate].
    inversion H; subst. constructor; [|apply IH; reflexivity].
    exact (deref_dict _ _ _ _ Hd).
Qed.

Lemma tag_dicts_returns (exec_id : Z) (started_at : string) (leads : list value) :
  Forall (fun lead => exists d, lead = VDict d) leads ->
  snd (efor leads (tag_and_append exec_id started_at)) = Ok tt.
Proof.
  induction 1 as [|lead leads [d ->] _ IH]; simpl; [reflexivity|].
  destruct (efor leads (tag_and_append exec_id started_at)) as [out r].
  simpl in *. exact IH.
Qed.

Lemma indexed_block_all_or_nothing (depth : nat) (exec_id : Z) (started_at : string)
    (data_array : value) (e : exc) :
  snd (indexed_block depth exec_id started_at data_array) = Raise e ->
  fst (indexed_block depth exec_id started_at data_array) = [].
Proof.
  unfold indexed_block.
  destruct (truthy data_array); [|discriminate].
  destruct data_array as [| | | |data|]; try discriminate.
  destruct (extract_leads_from_execution depth data) as [leads|e'] eqn:E; simpl.
  - pose proof (tag_dicts_returns exec_id started_at leads
                  (extract_loop_dicts _ _ _ _ E)) as Hok.
    destruct (efor leads (tag_and_append exec_id started_at)) as [out r].
    simpl in *. rewrite Hok. discriminate.
  - reflexivity.
Qed.

Lemma rows_independent (depth : nat) (before : list row) (r : row) (after : list row) :
  flat_map (row_leads depth) (before ++ r :: after)
  = flat_map (row_leads depth) before ++ row_leads depth r
    ++ flat_map (row_leads depth) after.
Proof.
  rewrite flat_map_app. reflexivity.
Qed.

(** C5 (the code at the failing input): the block of [partial_row] raises
    TypeError on its second item, after the lead of its first item was
    appended; the lead stays and is returned by get_leads. *)
Theorem partial_leads_survive_exception :
  snd (row_block 100 partial_row) = Raise TypeError
  /\ List.length (row_leads 100 partial_row) = 1
  /\ exists lead,
       snd (get_leads 100 (store_of [partial_row]) 50 0)
       = Ok (VDict [ ("leads", VList [VDict lead]); ("total", VInt 1);
                     ("limit", VInt 50); ("offset", VInt 0) ])
       /\ dict_lookup lead "link" = Some (VStr "https://redd.it/b").
Proof.
  split; [vm_compute; reflexivity|].
  split; [vm_compute; reflexivity|].
  eexists. split; vm_compute; reflexivity.
Qed.

End locator_facts.

(** ** Deduplication *)












Example dedup_duplicate_link :
  dedup [ sample_lead "https://redd.it/1" "2024-01-01";
          sample_lead "" "2024-01-02";
          sample_lead "https://redd.it/1" "2024-03-01" ]
  = Ok [ sample_lead "https://redd.it/1" "2024-01-01" ].
Proof. reflexivity. Qed.

(** ** Pagination *)

Lemma py_slice_length {A} (l : list A) (limit offset : Z) :
  (0 <= limit)%Z -> (0 <= offset)%Z ->
  Z.of_nat (List.length (py_slice l offset (offset + limit)))
  = Z.min limit (Z.max 0 (Z.of_nat (List.length l) - offset)).
Proof.
  intros Hl Ho. unfold py_slice, slice_bound.
  destruct (Z.ltb_spec offset 0); [lia|].
  destruct (Z.ltb_spec (offset + limit) 0); [lia|].
  rewrite length_firstn, length_skipn. lia.
Qed.

(** C7: for a collection of N leads, a limit L >= 0 and an offset O >= 0, the
    slice has min(L, max(0, N - O)) leads; the envelope that is returned
    holds as many normalized leads and total = N; an offset beyond the end
    gives the envelope with no lead.  (Nothing is returned only when
    normalizing a lead of the slice raises.) *)
Theorem pagination_count (unique_leads : list dict) (limit offset : Z) :
  (0 <= limit)%Z -> (0 <= offset)%Z ->
  let N := Z.of_nat (List.length unique_leads) in
  let count := Z.min limit (Z.max 0 (N - offset)) in
  Z.of_nat (List.length (paginate unique_leads limit offset)) = count
  /\ match respond unique_leads limit offset with
     | Ok envelope =>
         exists leads,
           envelope = VDict [ ("leads", VList leads); ("total", VInt N);
                              ("limit", VInt limit); ("offset", VInt offset) ]
           /\ Z.of_nat (List.length leads) = count
     | Raise e =>
         Exists (fun lead => normalize lead = Raise e)
                (paginate unique_leads limit offset)
     end
  /\ ((N <= offset)%Z ->
      respond unique_leads limit offset
      = Ok (VDict [ ("leads", VList []); ("total", VInt N);
                    ("limit", VInt limit); ("offset", VInt offset) ])).
Proof.
  intros Hl Ho N count.
  assert (Hlen : Z.of_nat (List.length (paginate unique_leads limit offset)) = count)
    by (apply py_slice_length; assumption).
  split; [exact Hlen|]. split.
  - unfold respond. simpl.
    destruct (rmap normalize (paginate unique_leads limit offset)) as [ys|e] eqn:E; simpl.
    + exists (map VDict ys). split; [reflexivity|].
      rewrite length_map, <- Hlen. f_equal. exact (rmap_length _ _ _ E).
    + apply rmap_raise. exact E.
  - intros Hout. unfold respond. simpl.
    assert (Hnil : paginate unique_leads limit offset = []).
    { apply length_zero_iff_nil. subst count. lia. }
    rewrite Hnil. reflexivity.
Qed.

Lemma pagination_count_witness :
  let N := Z.of_nat (List.length three_leads) in
  let count := Z.min 2 (Z.max 0 (N - 2)) in
  Z.of_nat (List.length (paginate three_leads 2 2)) = count
  /\ match respond three_leads 2 2 with
     | Ok envelope =>
         exists leads,
           envelope = VDict [ ("leads", VList leads); ("total", VInt N);
                              ("limit", VInt 2); ("offset", VInt 2) ]
           /\ Z.of_nat (List.length leads) = count
     | Raise e =>
         Exists (fun lead => normalize lead = Raise e) (paginate three_leads 2 2)
     end
  /\ ((N <= 2)%Z ->
      respond three_leads 2 2
      = Ok (VDict [ ("leads", VList []); ("total", VInt N);
                    ("limit", VInt 2); ("offset", VInt 2) ])).
Proof.
  apply (pagination_count three_leads 2 2); lia.
Defined.

(** ** Sort *)

Lemma string_compare_ot (s t : string) : String.compare s t = String_as_OT.compare s t.
Proof.
  reflexivity.
Qed.

Lemma string_leb_iff (s t : string) :
  (s <=? t) = true <-> s = t \/ String_as_OT.lt s t.
Proof.
  unfold String.leb. rewrite string_compare_ot.
  destruct (String_as_OT.compare_spec s t) as [H|H|H]; split; auto; try discriminate.
  intros [->|H']; exfalso.
  - exact (StrictOrder_Irreflexive _ H).
  - exact (StrictOrder_Irreflexive _ (StrictOrder_Transitive _ _ _ H H')).
Qed.

Lemma string_leb_trans (s t u : string) :
  (s <=? t) = true -> (t <=? u) = true -> (s <=? u) = true.
Proof.
  rewrite !string_leb_iff. intros [->|H1] [->|H2]; auto.
  right. exact (StrictOrder_Transitive _ _ _ H1 H2).
Qed.

Lemma string_ltb_false (s t : string) : (s <? t) = false -> (t <=? s) = true.
Proof.
  unfold String.ltb, String.leb. rewrite (String.compare_antisym s t).
  destruct (String.compare t s); simpl; auto; discriminate.
Qed.

Lemma string_ltb_true (s t : string) : (s <? t) = true -> (s <=? t) = true.
Proof.
  unfold String.ltb, String.leb. destruct (String.compare s t); auto; discriminate.
Qed.

Lemma string_leb_empty (s : string) : (s <=? "") = true -> s = "".
Proof.
  destruct s; [reflexivity|discriminate].
Qed.

Lemma insert_desc_perm (x : dict) (l : list dict) :
  Permutation (x :: l) (insert_desc x l).
Proof.
  induction l as [|y l IH]; simpl; [reflexivity|].
  destruct (found_at_key x <? found_at_key y); [|reflexivity].
  rewrite perm_swap. apply perm_skip. exact IH.
Qed.

Lemma insert_desc_sorted (x : dict) (l : list dict) :
  StronglySorted found_at_ge l -> StronglySorted found_at_ge (insert_desc x l).
Proof.
  induction 1 as [|y l Hs IH Hall]; simpl.
  - repeat constructor.
  - destruct (found_at_key x <? found_at_key y) eqn:E.
    + constructor; [exact IH|].
      eapply Permutation_Forall; [apply insert_desc_perm|].
      constructor; [|exact Hall].
      apply string_ltb_true. exact E.
    + apply string_ltb_false in E.
      constructor; [constructor; assumption|].
      constructor; [exact E|].
      eapply Forall_impl; [|exact Hall]. intros z Hz.
      unfold found_at_ge in *. eapply string_leb_trans; eassumption.
Qed.

Lemma StronglySorted_app_r {A} (R : A -> A -> Prop) (l1 l2 : list A) :
  StronglySorted R (l1 ++ l2) -> StronglySorted R l2.
Proof.
  induction l1 as [|x l1 IH]; simpl; auto.
  intros H. apply StronglySorted_inv in H. apply IH, H.
Qed.

Lemma sort_leads_perm (l : list dict) : Permutation l (sort_leads l).
Proof.
  induction l as [|x l IH]; simpl; [constructor|].
  rewrite <- insert_desc_perm. apply perm_skip. exact IH.
Qed.

Lemma sort_leads_sorted (l : list dict) : StronglySorted found_at_ge (sort_leads l).
Proof.
  induction l as [|x l IH]; simpl; [constructor|].
  apply insert_desc_sorted. exact IH.
Qed.

Lemma string_ltb_irrefl (s : string) : (s <? s) = false.
Proof.
  unfold String.ltb. rewrite string_compare_ot.
  destruct (String_as_OT.compare_spec s s) as [_|H|_]; try reflexivity.
  exfalso. exact (StrictOrder_Irreflexive _ H).
Qed.

(** The sort is stable: leads with the same foundAt keep their order. *)
Lemma insert_desc_filter (key : string) (x : dict) (l : list dict) :
  filter (fun lead => found_at_key lead =? key) (insert_desc x l)
  = filter (fun lead => found_at_key lead =? key) (x :: l).
Proof.
  induction l as [|y l IH]; [reflexivity|].
  simpl insert_desc. destruct (found_at_key x <? found_at_key y) eqn:E; [|reflexivity].
  simpl in *. rewrite IH.
  destruct (found_at_key x =? key) eqn:Ex; [|reflexivity].
  destruct (found_at_key y =? key) eqn:Ey; [|reflexivity].
  apply String.eqb_eq in Ex, Ey. rewrite Ex, Ey, string_ltb_irrefl in E.
  discriminate.
Qed.

(** X23: the sort is stable: for each foundAt value, the leads that carry it
    come out in the order they went in (the order of extraction), so among
    leads of one execution, or of executions started at the same time, the
    sort changes nothing. *)
Lemma sort_leads_stable (key : string) (l : list dict) :
  filter (fun lead => found_at_key lead =? key) (sort_leads l)
  = filter (fun lead => found_at_key lead =? key) l.
Proof.
  induction l as [|x l IH]; [reflexivity|].
  simpl sort_leads. rewrite insert_desc_filter. simpl. rewrite IH. reflexivity.
Qed.

(** C8: the sort puts the deduplicated leads in descending order of foundAt,
    compared as strings: the result holds the same leads, each followed only
    by leads whose foundAt is not greater; a lead without foundAt is read as
    the empty string and has only such leads after it; and leads found at
    2024-01-01, 2024-03-01, 2024-02-01 are returned, by the steps after
    deduplication included, as 03-01, 02-01, 01-01. *)
Theorem sort_leads_descending :
  (forall unique_leads,
      Permutation unique_leads (sort_leads unique_leads)
      /\ StronglySorted found_at_ge (sort_leads unique_leads)
      /\ (forall before lead after,
            sort_leads unique_leads = before ++ lead :: after ->
            dict_lookup lead "foundAt" = None ->
            found_at_key lead = ""
            /\ Forall (fun later => found_at_key later = "") after))
  /\ map found_at_key (sort_leads three_leads)
     = ["2024-03-01"; "2024-02-01"; "2024-01-01"]
  /\ exists l1 l2 l3,
       finish three_leads 50 0
       = Ok (VDict [ ("leads", VList [VDict l1; VDict l2; VDict l3]);
                     ("total", VInt 3); ("limit", VInt 50); ("offset", VInt 0) ])
       /\ dict_lookup l1 "foundAt" = Some (VStr "2024-03-01")
       /\ dict_lookup l2 "foundAt" = Some (VStr "2024-02-01")
       /\ dict_lookup l3 "foundAt" = Some (VStr "2024-01-01").
Proof.
  split; [|split].
  - intros unique_leads.
    pose proof (sort_leads_perm unique_leads) as Hperm.
    pose proof (sort_leads_sorted unique_leads) as Hsorted.
    split; [exact Hperm|]. split; [exact Hsorted|].
    intros before lead after Heq Hmissing.
    assert (Hkey : found_at_key lead = "").
    { unfold found_at_key, dict_get. rewrite Hmissing. reflexivity. }
    split; [exact Hkey|].
    rewrite Heq in Hsorted. apply StronglySorted_app_r in Hsorted.
    apply StronglySorted_inv in Hsorted. destruct Hsorted as [_ Hall].
    eapply Forall_impl; [|exact Hall]. intros later Hlater.
    unfold found_at_ge in Hlater. rewrite Hkey in Hlater.
    apply string_leb_empty. exact Hlater.
  - reflexivity.
  - do 3 eexists. repeat split; vm_compute; reflexivity.
Qed.

(** * Further properties *)

(** ** deref: resolved values, shape, cycles *)

Lemma rmap_Forall2 {A B} (f : A -> result B) (l : list A) (ys : list B) :
  rmap f l = Ok ys -> Forall2 (fun x y => f x = Ok y) l ys.
Proof.
  revert ys. induction l as [|x l IH]; intros ys H; simpl in H.
  - inversion H. constructor.
  - destruct (f x) as [y|] eqn:Ex; [|discriminate].
    destruct (rmap f l) as [ys'|]; [|discriminate].
    inversion H; subst. constructor; [exact Ex|apply IH; reflexivity].
Qed.

(** A loop over elements that each come back unchanged or raise ValueError:
    the first that raises stops it. *)
Lemma rmap_pointwise {A} (f : A -> result A) (c : A -> bool) (l : list A) :
  Forall (fun x => f x = if c x then Ok x else Raise ValueError) l ->
  rmap f l = if forallb c l then Ok l else Raise ValueError.
Proof.
  induction 1 as [|x l Hx _ IH]; simpl; [reflexivity|].
  rewrite Hx. destruct (c x); simpl; [|reflexivity].
  rewrite IH. destruct (forallb c l); reflexivity.
Qed.

Lemma Forall2_in_r_exists {A B} (R : A -> B -> Prop) (l : list A) (ys : list B) :
  Forall2 R l ys -> forall y, In y ys -> exists x, In x l /\ R x y.
Proof.
  induction 1 as [|x y l ys Hxy _ IH]; intros z Hz; [destruct Hz|].
  destruct Hz as [<-|Hz].
  - exists x. split; [left; reflexivity|exact Hxy].
  - destruct (IH z Hz) as [x' [Hin Hr]]. exists x'. split; [right; exact Hin|exact Hr].
Qed.

Lemma rmap_keys (f : value -> result value) (items items' : list (string * value)) :
  rmap (fun kv : string * value =>
          match f (snd kv) with
          | Ok v => Ok (fst kv, v)
          | Raise e => Raise e
          end) items = Ok items' ->
  map fst items' = map fst items.
Proof.
  revert items'. induction items as [|[k x] items IH]; intros items' H; simpl in H.
  - inversion H. reflexivity.
  - destruct (f x); [|discriminate].
    match type of H with
    | match ?m with _ => _ end = _ =>
        destruct m as [ys|] eqn:E; [|discriminate]
    end.
    inversion H; subst. simpl. rewrite (IH ys eq_refl). reflexivity.
Qed.

Section deref_shape.
Context {py : interpreter}.

Lemma converts_list (items : list value) :
  converts (VList items) = forallb converts items.
Proof.
  reflexivity.
Qed.

Lemma converts_dict (items : list (string * value)) :
  converts (VDict items) = forallb (fun kv => converts (snd kv)) items.
Proof.
  reflexivity.
Qed.

(** A value that mentions no entry comes back as it is, unless it holds a
    string that [isdigit] accepts and [int] rejects. *)
Lemma deref_unmentioning (data : list value) :
  forall v,
    (forall j, ~ mentions data v j) ->
    exists depth,
      deref depth v data = if converts v then Ok v else Raise ValueError.
Proof.
  induction v as [| b | n | s | items IH | items IH] using value_nested_ind;
    intros Hno; try (exists 1; reflexivity).
  - exists 1. simpl.
    destruct (isdigit s) eqn:Ed; [|reflexivity].
    destruct (int_of s) as [idx|] eqn:En; [|reflexivity].
    destruct (idx <? N.of_nat (List.length data))%N eqn:Ei; [|reflexivity].
    exfalso. exact (Hno _ (mentions_str data s idx Ed En (proj1 (N.ltb_lt _ _) Ei))).
  - assert (Hall : exists depth,
               Forall (fun x => deref depth x data
                                = if converts x then Ok x else Raise ValueError) items).
    { assert (Hno' : forall x, In x items -> forall j, ~ mentions data x j).
      { intros x Hx j Hj. apply (Hno j). econstructor; eauto. }
      clear Hno. induction IH as [|x l Hx _ IHl].
      - exists 0. constructor.
      - destruct (Hx (Hno' x (or_introl eq_refl))) as [d Hd].
        destruct IHl as [d' Hd']; [intros y Hy; apply Hno'; right; exact Hy|].
        exists (Nat.max d d'). constructor.
        + rewrite (deref_stable data d); [exact Hd| |apply Nat.le_max_l].
          rewrite Hd. destruct (converts x); discriminate.
        + eapply Forall_impl; [|exact Hd']. intros y Hy. simpl in *.
          rewrite (deref_stable data d'); [exact Hy| |apply Nat.le_max_r].
          rewrite Hy. destruct (converts y); discriminate. }
    destruct Hall as [d Hd]. exists (S d).
    rewrite converts_list. cbn [deref].
    rewrite (rmap_pointwise _ converts _ Hd).
    destruct (forallb converts items); reflexivity.
  - assert (Hall : exists depth,
               Forall (fun kv : string * value =>
                         deref depth (snd kv) data
                         = if converts (snd kv) then Ok (snd kv) else Raise ValueError)
                      items).
    { assert (Hno' : forall kv, In kv items -> forall j, ~ mentions data (snd kv) j).
      { intros [k x] Hx j Hj. apply (Hno j). econstructor; eauto. }
      clear Hno. induction IH as [|x l Hx _ IHl].
      - exists 0. constructor.
      - destruct (Hx (Hno' x (or_introl eq_refl))) as [d Hd].
        destruct IHl as [d' Hd']; [intros y Hy; apply Hno'; right; exact Hy|].
        exists (Nat.max d d'). constructor.
        + rewrite (deref_stable data d); [exact Hd| |apply Nat.le_max_l].
          rewrite Hd. destruct (converts (snd x)); discriminate.
        + eapply Forall_impl; [|exact Hd']. intros y Hy. simpl in *.
          rewrite (deref_stable data d'); [exact Hy| |apply Nat.le_max_r].
          rewrite Hy. destruct (converts (snd y)); discriminate. }
    destruct Hall as [d Hd]. exists (S d).
    rewrite converts_dict. cbn [deref].
    rewrite (rmap_pointwise _ (fun kv => converts (snd kv)) items).
    + destruct (forallb (fun kv => converts (snd kv)) items); reflexivity.
    + eapply Forall_impl; [|exact Hd]. intros [k x] Hx. simpl in *.
      rewrite Hx. destruct (converts x); reflexivity.
Qed.

(** What [deref] returns mentions no entry of the table. *)
Lemma deref_resolved (data : list value) :
  forall depth v r, deref depth v data = Ok r -> forall j, ~ mentions data r j.
Proof.
  induction depth as [|depth IH]; intros v r H j Hj; simpl in H; [discriminate|].
  destruct v as [| b | n | s | items | items];
    try (inversion H; subst; inversion Hj; fail).
  - destruct (isdigit s) eqn:Ed.
    + destruct (int_of s) as [idx|] eqn:En; [|discriminate].
      destruct (idx <? N.of_nat (List.length data))%N eqn:Ei.
      * exact (IH _ _ H j Hj).
      * inversion H; subst. inversion Hj as [? idx' ? Hn' Hi'| |]; subst.
        apply N.ltb_ge in Ei. rewrite En in Hn'. inversion Hn'; subst. lia.
    + inversion H; subst. inversion Hj; subst. congruence.
  - destruct (rmap (fun v => deref depth v data) items) as [ys|] eqn:E;
      [|discriminate].
    inversion H; subst. inversion Hj as [| ? y ? Hy Hm |]; subst.
    apply rmap_Forall2 in E.
    destruct (Forall2_in_r_exists _ _ _ E y Hy) as [x [_ Hx]].
    exact (IH _ _ Hx j Hm).
  - match type of H with
    | match rmap ?f items with _ => _ end = _ =>
        destruct (rmap f items) as [ys|] eqn:E; [|discriminate]
    end.
    inversion H; subst. inversion Hj as [| | ? k y ? Hy Hm]; subst.
    apply rmap_Forall2 in E.
    destruct (Forall2_in_r_exists _ _ _ E (k, y) Hy) as [[k' x] [_ Hx]].
    simpl in Hx. destruct (deref depth x data) as [w|] eqn:Ew; [|discriminate].
    inversion Hx; subst. exact (IH _ _ Ew j Hm).
Qed.

(** What [deref] returns holds no string that [int] rejects. *)
Lemma deref_converts (data : list value) :
  forall depth v r, deref depth v data = Ok r -> converts r = true.
Proof.
  induction depth as [|depth IH]; intros v r H; simpl in H; [discriminate|].
  destruct v as [| b | n | s | items | items];
    try (inversion H; subst; reflexivity).
  - destruct (isdigit s) eqn:Ed.
    + destruct (int_of s) as [idx|] eqn:En; [|discriminate].
      destruct (idx <? N.of_nat (List.length data))%N eqn:Ei.
      * exact (IH _ _ H).
      * inversion H; subst. simpl. rewrite Ed, En. reflexivity.
    + inversion H; subst. simpl. rewrite Ed. reflexivity.
  - destruct (rmap (fun v => deref depth v data) items) as [ys|] eqn:E;
      [|discriminate].
    inversion H; subst. rewrite converts_list. apply forallb_forall. intros y Hy.
    apply rmap_Forall2 in E.
    destruct (Forall2_in_r_exists _ _ _ E y Hy) as [x [_ Hx]].
    exact (IH _ _ Hx).
  - match type of H with
    | match rmap ?f items with _ => _ end = _ =>
        destruct (rmap f items) as [ys|] eqn:E; [|discriminate]
    end.
    inversion H; subst. rewrite converts_dict. apply forallb_forall.
    intros [k y] Hy. apply rmap_Forall2 in E.
    destruct (Forall2_in_r_exists _ _ _ E (k, y) Hy) as [[k' x] [_ Hx]].
    simpl in Hx. destruct (deref depth x data) as [w|] eqn:Ew; [|discriminate].
    inversion Hx; subst. exact (IH _ _ Ew).
Qed.

(** X1: with an empty table no index string is in range, and deref gives
    every value back unchanged, nested dicts and lists included, unless the
    value holds a string that str.isdigit accepts and int rejects: then it
    raises the ValueError of int. *)
Theorem deref_empty_table (v : value) :
  exists depth,
    forall depth', depth <= depth' ->
      deref depth' v [] = if converts v then Ok v else Raise ValueError.
Proof.
  destruct (deref_unmentioning [] v) as [d Hd].
  - intros j Hj. apply mentions_lt in Hj. simpl in Hj. lia.
  - exists d. intros d' Hle. rewrite (deref_stable [] d); [exact Hd| |exact Hle].
    rewrite Hd. destruct (converts v); discriminate.
Qed.

(** X2: a value that holds no index string in range of the table (at any
    nesting depth, dict keys apart) is returned unchanged by deref, an index
    string out of range counting as plain text; unless it holds a string
    that str.isdigit accepts and int rejects: then deref raises the
    ValueError of int. *)
Theorem deref_without_references (data : list value) (v : value) :
  (forall j, ~ mentions data v j) ->
  exists depth,
    forall depth', depth <= depth' ->
      deref depth' v data = if converts v then Ok v else Raise ValueError.
Proof.
  intros Hno. destruct (deref_unmentioning data v Hno) as [d Hd].
  exists d. intros d' Hle. rewrite (deref_stable data d); [exact Hd| |exact Hle].
  rewrite Hd. destruct (converts v); discriminate.
Qed.

(** X3: what deref returns is fully resolved: it holds no index string in
    range of the table, so a second deref of it changes nothing. *)
Theorem deref_idempotent (data : list value) (depth : nat) (v r : value) :
  deref depth v data = Ok r ->
  (forall j, ~ mentions data r j)
  /\ exists depth', forall d, depth' <= d -> deref d r data = Ok r.
Proof.
  intros H. pose proof (deref_resolved data depth v r H) as Hno.
  split; [exact Hno|].
  destruct (deref_unmentioning data r Hno) as [d Hd].
  rewrite (deref_converts data depth v r H) in Hd.
  exists d. intros d' Hle. apply (deref_mono data d); assumption.
Qed.

Lemma deref_dict_keys (depth : nat) (d : dict) (data : list value) (r : value) :
  deref depth (VDict d) data = Ok r ->
  exists d', r = VDict d' /\ map fst d' = map fst d.
Proof.
  destruct depth as [|depth]; simpl; [discriminate|].
  match goal with
  | |- match rmap ?f d with _ => _ end = _ -> _ => destruct (rmap f d) as [d'|] eqn:E
  end; [|discriminate].
  intros H. inversion H. exists d'. split; [reflexivity|].
  exact (rmap_keys (fun v => deref depth v data) d d' E).
Qed.

(** X4: deref keeps the shape of what it is given.  A dict comes back as a
    dict with the same keys in the same order, a list as a list of the same
    length, None, booleans, numbers and the strings that are no index in
    range (str.isdigit rejects them, or int gives a number that is not below
    the length of the table) come back unchanged; and the exceptions it
    raises are RecursionError and the ValueError of int. *)
Theorem deref_keeps_shape (depth : nat) (v : value) (data : list value) :
  match deref depth v data with
  | Ok r =>
      match v with
      | VDict items => exists items', r = VDict items' /\ map fst items' = map fst items
      | VList items =>
          exists items', r = VList items' /\ List.length items' = List.length items
      | VStr s =>
          isdigit s = false
          \/ (exists idx, int_of s = Some idx /\ (N.of_nat (List.length data) <= idx)%N) ->
          r = v
      | _ => r = v
      end
  | Raise e => e = RecursionError \/ e = ValueError
  end.
Proof.
  destruct (deref depth v data) as [r|e] eqn:H;
    [|exact (deref_raises data _ _ _ H)].
  destruct v as [| b | n | s | items | items].
  - destruct depth; simpl in H; [discriminate|]. congruence.
  - destruct depth; simpl in H; [discriminate|]. congruence.
  - destruct depth; simpl in H; [discriminate|]. congruence.
  - destruct depth; simpl in H; [discriminate|]. intros Hs.
    destruct (isdigit s); [|congruence].
    destruct Hs as [Hs|[idx [Hn Hs]]]; [discriminate|]. rewrite Hn in H.
    destruct (idx <? N.of_nat (List.length data))%N eqn:Ei; [|congruence].
    apply N.ltb_lt in Ei. lia.
  - destruct depth; simpl in H; [discriminate|].
    destruct (rmap (fun v => deref depth v data) items) as [ys|] eqn:E; [|discriminate].
    inversion H; subst. exists ys. split; [reflexivity|].
    exact (rmap_length _ _ _ E).
  - exact (deref_dict_keys _ _ _ _ H).
Qed.

(** On a value that leads to a cycle [deref] never returns. *)
Lemma deref_reaching_cycle (data : list value) :
  forall depth v j r,
    mentions data v j -> clos_trans nat (refers data) j j ->
    deref depth v data <> Ok r.
Proof.
  induction depth as [|depth IH]; intros v j r Hm Hc; [discriminate|].
  destruct Hm as [s idx Hd Hn Hi | items x j Hin Hm | items k x j Hin Hm]; simpl.
  - rewrite Hd, Hn, (proj2 (N.ltb_lt _ _) Hi).
    destruct (cycle_step data _ Hc) as [j' [[_ Hm'] Hc']].
    exact (IH _ j' r Hm' Hc').
  - destruct (rmap (fun v => deref depth v data) items) as [ys|] eqn:E;
      [|discriminate].
    exfalso. apply rmap_Forall2 in E. clear r.
    induction E as [|y w l ws Hy _ IHE]; [destruct Hin|].
    destruct Hin as [->|Hin]; [exact (IH x j w Hm Hc Hy)|exact (IHE Hin)].
  - match goal with
    | |- match rmap ?f items with _ => _ end <> _ =>
        destruct (rmap f items) as [ys|] eqn:E; [|discriminate]
    end.
    exfalso. apply rmap_Forall2 in E. clear r.
    induction E as [|y w l ws Hy _ IHE]; [destruct Hin|].
    destruct Hin as [->|Hin]; [|exact (IHE Hin)].
    simpl in Hy. destruct (deref depth x data) as [u|] eqn:Eu; [|discriminate].
    exact (IH x j u Hm Hc Eu).
Qed.

Lemma deref_never_returns (data : list value) (depth : nat) (v : value) :
  (forall r, deref depth v data <> Ok r) ->
  deref depth v data = Raise RecursionError \/ deref depth v data = Raise ValueError.
Proof.
  intros Hno. destruct (deref depth v data) as [r|e] eqn:E.
  - exfalso. exact (Hno r eq_refl).
  - destruct (deref_raises data _ _ _ E) as [->| ->]; [left|right]; reflexivity.
Qed.

(** X5: the converse of the acyclicity precondition.  When entry i of the
    table reaches itself through index strings, deref returns neither on
    that entry nor on any value that holds the index string of i, whatever
    recursion depth is allowed: it raises RecursionError, or the ValueError
    of int when it first meets a string that int rejects. *)
Theorem deref_raises_on_cycle (data : list value) (i : nat) :
  clos_trans nat (refers data) i i ->
  forall depth,
    (deref depth (nth i data VNone) data = Raise RecursionError
     \/ deref depth (nth i data VNone) data = Raise ValueError)
    /\ forall v,
         mentions data v i ->
         deref depth v data = Raise RecursionError
         \/ deref depth v data = Raise ValueError.
Proof.
  intros Hc depth. split.
  - destruct (cycle_step data i Hc) as [j [[_ Hm] Hj]].
    apply deref_never_returns. intros r.
    exact (deref_reaching_cycle data depth _ j r Hm Hj).
  - intros v Hm. apply deref_never_returns. intros r.
    exact (deref_reaching_cycle data depth v i r Hm Hc).
Qed.

End deref_shape.

Lemma deref_without_references_witness :
  (forall j, ~ mentions (py := cpython) sample_table
                (VDict [("title", VStr "7"); ("tags", VList [VStr "web"; VInt 1])]) j)
  /\ exists depth, forall depth', depth <= depth' ->
       deref (py := cpython) depth'
             (VDict [("title", VStr "7"); ("tags", VList [VStr "web"; VInt 1])])
             sample_table
       = Ok (VDict [("title", VStr "7"); ("tags", VList [VStr "web"; VInt 1])]).
Proof.
  assert (Hno : forall j, ~ mentions (py := cpython) sample_table
                (VDict [("title", VStr "7"); ("tags", VList [VStr "web"; VInt 1])]) j).
  { intros j Hj. apply mentions_refs_of in Hj. exact Hj. }
  split; [exact Hno|].
  exact (deref_without_references (py := cpython) sample_table _ Hno).
Defined.

Lemma deref_idempotent_witness :
  deref (py := cpython) 5 (nth 0 sample_table VNone) sample_table
  = Ok (VDict [("title", VStr "Need a website"); ("subreddit", VStr "r/phoenix");
               ("link", VStr "https://redd.it/a")])
  /\ (forall j, ~ mentions (py := cpython) sample_table
        (VDict [("title", VStr "Need a website"); ("subreddit", VStr "r/phoenix");
                ("link", VStr "https://redd.it/a")]) j)
  /\ exists depth', forall d, depth' <= d ->
       deref (py := cpython) d
             (VDict [("title", VStr "Need a website"); ("subreddit", VStr "r/phoenix");
                     ("link", VStr "https://redd.it/a")]) sample_table
       = Ok (VDict [("title", VStr "Need a website"); ("subreddit", VStr "r/phoenix");
                    ("link", VStr "https://redd.it/a")]).
Proof.
  split; [reflexivity|].
  exact (deref_idempotent (py := cpython) sample_table 5
           (nth 0 sample_table VNone) _ eq_refl).
Defined.

Lemma deref_raises_on_cycle_witness :
  clos_trans nat (refers (py := cpython) [VList [VStr "0"]]) 0 0
  /\ forall depth,
       (deref (py := cpython) depth (nth 0 [VList [VStr "0"]] VNone)
              [VList [VStr "0"]]
        = Raise RecursionError
        \/ deref (py := cpython) depth (nth 0 [VList [VStr "0"]] VNone)
                 [VList [VStr "0"]]
           = Raise ValueError)
       /\ forall v,
            mentions (py := cpython) [VList [VStr "0"]] v 0 ->
            deref (py := cpython) depth v [VList [VStr "0"]] = Raise RecursionError
            \/ deref (py := cpython) depth v [VList [VStr "0"]] = Raise ValueError.
Proof.
  assert (Hc : clos_trans nat (refers (py := cpython) [VList [VStr "0"]]) 0 0).
  { apply t_step. split; [simpl; lia|].
    apply mentions_list with (v := VStr "0"); [left; reflexivity|].
    exact (mentions_str (py := cpython) [VList [VStr "0"]] "0" 0
             eq_refl eq_refl eq_refl). }
  split; [exact Hc|].
  exact (deref_raises_on_cycle (py := cpython) [VList [VStr "0"]] 0 Hc).
Defined.

(** A cycle behind a string that [int] rejects: the ValueError comes first,
    at every depth that lets [deref] look at the string. *)
Example deref_cycle_value_error (depth : nat) :
  deref (py := cpython) (S (S depth))
        (VList [VStr (copies 4301 "0"); VStr "0"])
        [VList [VStr (copies 4301 "0"); VStr "0"]]
  = Raise ValueError.
Proof.
  vm_compute. reflexivity.
Qed.

(** ** The leads of a row *)

Lemma dict_has_keys (d d' : dict) (key : string) :
  map fst d = map fst d' -> dict_has d key = dict_has d' key.
Proof.
  revert d'. induction d as [|[k v] d IH]; intros [|[k' v'] d'] H; simpl in *;
    try discriminate; [reflexivity|].
  inversion H; subst. rewrite (IH d'); auto.
Qed.

Lemma dict_has_set (d : dict) (key key' : string) (v : value) :
  dict_has (dict_set d key v) key' = dict_has d key' || (key =? key').
Proof.
  induction d as [|[k w] d IH]; simpl.
  - destruct (key =? key'); reflexivity.
  - destruct (k =? key) eqn:E; simpl.
    + apply String.eqb_eq in E. subst k.
      destruct (key =? key'); [reflexivity|]. rewrite orb_false_r. reflexivity.
    + destruct (k =? key'); [reflexivity|exact IH].
Qed.

Section row_facts.
Context {py : interpreter}.

Lemma deref_looks_like_lead (depth : nat) (data : list value) (item lead : value) :
  looks_like_lead item = true ->
  deref depth item data = Ok lead ->
  looks_like_lead lead = true.
Proof.
  intros Hlook Hd. destruct item as [| | | | |d]; try discriminate.
  destruct (deref_dict_keys _ _ _ _ Hd) as [d' [-> Hkeys]]. simpl in *.
  rewrite !(dict_has_keys d' d) by exact Hkeys. exact Hlook.
Qed.

Lemma extract_loop_spec (depth : nat) (data : list value) :
  forall items,
    match extract_loop depth data items with
    | Ok leads =>
        Forall2 (fun item lead => deref depth item data = Ok lead)
                (filter looks_like_lead items) leads
    | Raise e =>
        (e = RecursionError \/ e = ValueError)
        /\ Exists (fun item => looks_like_lead item = true
                               /\ deref depth item data = Raise e) items
    end.
Proof.
  induction items as [|item items IH]; simpl; [constructor|].
  destruct (looks_like_lead item) eqn:Hlook.
  - destruct (deref depth item data) as [lead|e] eqn:Hd; simpl.
    + destruct (extract_loop depth data items) as [leads|e]; simpl.
      * constructor; assumption.
      * destruct IH as [He Hex]. split; [exact He|].
        apply Exists_cons_tl. exact Hex.
    + split; [exact (deref_raises data _ _ _ Hd)|].
      apply Exists_cons_hd. split; assumption.
  - destruct (extract_loop depth data items) as [leads|e]; [exact IH|].
    destruct IH as [He Hex]. split; [exact He|].
    apply Exists_cons_tl. exact Hex.
Qed.

(** X6: extract_leads_from_execution returns, in the order of the array, one
    lead for each element that is a dict with title, subreddit and link
    keys: the element deindexed against the whole array, still a dict with
    these three keys, and holding no index string in range any more.  Other
    elements are skipped; an empty array gives no lead.  It raises only what
    deref raises on such an element: RecursionError, or the ValueError of
    int. *)
Theorem extract_leads_spec (depth : nat) (data : list value) :
  match extract_leads_from_execution depth data with
  | Ok leads =>
      Forall2 (fun item lead =>
                 deref depth item data = Ok lead
                 /\ looks_like_lead lead = true
                 /\ forall j, ~ mentions data lead j)
              (filter looks_like_lead data) leads
  | Raise e =>
      (e = RecursionError \/ e = ValueError)
      /\ Exists (fun item => looks_like_lead item = true
                             /\ deref depth item data = Raise e) data
  end.
Proof.
  unfold extract_leads_from_execution.
  pose proof (extract_loop_spec depth data data) as H.
  destruct (extract_loop depth data data) as [leads|e]; [|exact H].
  assert (Hin : Forall (fun item => looks_like_lead item = true)
                       (filter looks_like_lead data)).
  { apply Forall_forall. intros item Hitem. apply filter_In in Hitem. tauto. }
  induction H as [|item lead items leads Hd _ IH]; constructor.
  - inversion Hin; subst. repeat split; auto.
    + eapply deref_looks_like_lead; eassumption.
    + exact (deref_resolved data depth item lead Hd).
  - apply IH. inversion Hin; assumption.
Qed.

Lemma emits_bind_ok {A B} (P : dict -> Prop) (m : emit A) (f : A -> emit B) :
  Forall P (fst m) ->
  (forall a, snd m = Ok a -> Forall P (fst (f a))) ->
  Forall P (fst (ebind m f)).
Proof.
  intros Hm Hf. destruct m as [out [a|e]]; simpl in *; [|exact Hm].
  specialize (Hf a eq_refl). destruct (f a) as [out' r]. simpl in *.
  apply Forall_app. split; assumption.
Qed.

Lemma emits_for_in {A} (P : dict -> Prop) (xs : list A) (body : A -> emit unit) :
  (forall x, In x xs -> Forall P (fst (body x))) -> Forall P (fst (efor xs body)).
Proof.
  induction xs as [|x xs IH]; intros Hbody; simpl; [constructor|].
  apply emits_bind.
  - apply Hbody. left. reflexivity.
  - intros _. apply IH. intros y Hy. apply Hbody. right. exact Hy.
Qed.

Lemma emits_collected (r : row) (d : dict) :
  dict_has d "title" = true -> dict_has d "link" = true ->
  Forall (collected r) (fst (tag_and_append (exec_id r) (started_at r) (VDict d))).
Proof.
  intros Ht Hl. simpl. constructor; [|constructor]. split; [|split].
  - split.
    + rewrite dict_lookup_set_other by discriminate. apply dict_lookup_set_same.
    + apply dict_lookup_set_same.
  - rewrite !dict_has_set, Ht. reflexivity.
  - rewrite !dict_has_set, Hl. reflexivity.
Qed.

Lemma run_item_collected (r : row) (item : value) :
  Forall (collected r) (fst (run_item (exec_id r) (started_at r) item)).
Proof.
  unfold run_item. destruct item as [| | | | |it]; try apply Forall_nil.
  destruct (dict_has it "json"); [|apply Forall_nil].
  apply emits_bind_ok; [apply Forall_nil|]. intros [|] Ht; [|apply Forall_nil].
  apply emits_bind_ok; [apply Forall_nil|]. intros [|] Hl; [|apply Forall_nil].
  simpl in Ht, Hl.
  destruct (dict_item it "json") as [| | | | |d]; try apply Forall_nil.
  simpl in Ht, Hl. apply emits_collected; congruence.
Qed.

Lemma indexed_block_collected (depth : nat) (r : row) (data_array : value) :
  Forall (collected r)
         (fst (indexed_block depth (exec_id r) (started_at r) data_array)).
Proof.
  unfold indexed_block.
  destruct (truthy data_array); [|apply Forall_nil].
  destruct data_array as [| | | |data|]; try apply Forall_nil.
  apply emits_bind_ok; [apply Forall_nil|]. intros leads Hleads. simpl in Hleads.
  pose proof (extract_loop_spec depth data data) as Hspec.
  unfold extract_leads_from_execution in Hleads. rewrite Hleads in Hspec.
  apply emits_for_in. intros lead Hin.
  destruct (Forall2_in_r_exists _ _ _ Hspec lead Hin) as [item [Hitem Hd]].
  apply filter_In in Hitem. destruct Hitem as [_ Hlook].
  pose proof (deref_looks_like_lead _ _ _ _ Hlook Hd) as Hlead.
  destruct lead as [| | | | |d]; try discriminate. simpl in Hlead.
  apply andb_prop in Hlead. destruct Hlead as [Hts Hl].
  apply andb_prop in Hts. destruct Hts as [Ht _].
  apply emits_collected; assumption.
Qed.

(** X7: every lead get_leads collects from a row is a dict that has a title
    and a link key and carries the provenance of that row: foundAt is the
    row's startedAt and executionId the row's id, put in place of whatever
    the payload held under these names.  It holds for both branches, and for
    the leads appended before an exception as well. *)
Theorem row_leads_collected (depth : nat) (r : row) :
  Forall (collected r) (row_leads depth r).
Proof.
  unfold row_leads, row_block.
  destruct (data_blob r) as [exec_data|e]; [|apply Forall_nil].
  unfold locate_leads.
  apply emits_bind; [|intros data_array; apply indexed_block_collected].
  destruct exec_data as [| | | | |d]; try apply Forall_nil.
  destruct (dict_has d "data"); [apply Forall_nil|].
  destruct (dict_has d "resultData"); [|apply Forall_nil].
  apply emits_bind; [|intros _; apply Forall_nil].
  unfold run_data_block, run_object.
  repeat first [ apply run_item_collected | emits_step ].
Qed.

(** ** Rows and the store *)

(** X8: a row that gives no lead (its blob cannot be decompressed, decoded
    or parsed, or its payload holds no lead) leaves no trace in what
    get_leads does and returns: the result is the one of the same store
    without that row. *)
Theorem empty_row_invisible (depth : nat) (db : store) (before after : list row)
    (r : row) (limit offset : Z) :
  row_leads depth r = [] ->
  get_leads depth (with_rows db (before ++ r :: after)) limit offset
  = get_leads depth (with_rows db (before ++ after)) limit offset.
Proof.
  intros Hr. unfold get_leads, with_rows. simpl.
  rewrite rows_independent, Hr, flat_map_app. reflexivity.
Qed.

(** X9: on a payload of the indexed-array shape (a top-level array, or an
    object with a data key) a row is all or nothing: when its block raises
    (deref raised on a lead), the row contributes no lead at all. *)
Theorem indexed_row_all_or_nothing (depth : nat) (r : row) (exec_data : value) :
  data_blob r = Parsed exec_data ->
  indexed_shape exec_data = true ->
  row_raises depth r = true ->
  row_leads depth r = [].
Proof.
  unfold row_raises, row_leads, row_block. intros -> Hshape Hraise.
  assert (Hblock : exists data_array,
             locate_leads depth (exec_id r) (started_at r) exec_data
             = indexed_block depth (exec_id r) (started_at r) data_array).
  { unfold locate_leads. destruct exec_data as [| | | |items|d]; try discriminate.
    - exists (VList items). apply ebind_eret.
    - simpl in Hshape. rewrite Hshape. exists (dict_item d "data"). apply ebind_eret. }
  destruct Hblock as [data_array Hblock]. rewrite Hblock in *.
  destruct (snd (indexed_block depth (exec_id r) (started_at r) data_array))
    as [[]|e] eqn:E; [discriminate|].
  exact (indexed_block_all_or_nothing _ _ _ _ _ E).
Qed.

(** X10: get_leads calls connect, cursor, execute, fetchall and close in
    this order until one raises.  The calls that returned are the first n of
    the five, in order; the call after them, if there is one, is a call that
    raises (it was made and nothing is called after it); all five return
    exactly when none raises, and close returns (the connection is closed)
    in that case only. *)
Theorem store_calls_in_order (depth : nat) (db : store) (limit offset : Z) :
  exists n,
    fst (get_leads depth db limit offset) = firstn n store_calls
    /\ Forall (fun ev => call_returns db ev = true) (firstn n store_calls)
    /\ (forall ev, nth_error store_calls n = Some ev -> call_returns db ev = false)
    /\ (n = 5 <-> store_failure db = None)
    /\ (In Close (fst (get_leads depth db limit offset)) <-> store_failure db = None).
Proof.
  unfold get_leads, store_failure, call_returns, store_calls.
  destruct (connect db); [|exists 0];
    [destruct (cursor db); [|exists 1];
     [destruct (execute db); [|exists 2];
      [destruct (fetchall db); [|exists 3];
       [destruct (close db); [exists 5|exists 4]|]|]|]|];
    simpl; (split; [reflexivity|]); (split; [repeat constructor|]);
    (split; [intros ev H; inversion H; reflexivity|]);
    intuition discriminate.
Qed.

End row_facts.

Lemma empty_row_invisible_witness :
  row_leads (py := cpython) 100 {| exec_id := 7; started_at := "2024-05-02"; stopped_at := "";
                   status := "success"; data_blob := Unreadable JSONDecodeError |} = []
  /\ get_leads (py := cpython) 100
       (with_rows (store_of [])
          ([partial_row]
           ++ {| exec_id := 7; started_at := "2024-05-02"; stopped_at := "";
                 status := "success"; data_blob := Unreadable JSONDecodeError |} :: []))
       50 0
     = get_leads (py := cpython) 100 (with_rows (store_of []) ([partial_row] ++ [])) 50 0.
Proof.
  split; [reflexivity|].
  exact (empty_row_invisible (py := cpython) 100 (store_of []) [partial_row] []
           {| exec_id := 7; started_at := "2024-05-02"; stopped_at := "";
              status := "success"; data_blob := Unreadable JSONDecodeError |}
           50 0 eq_refl).
Defined.

Lemma indexed_row_all_or_nothing_witness :
  let r := {| exec_id := 9; started_at := "2024-05-03"; stopped_at := "";
              status := "success";
              data_blob := Parsed (VList [ VDict [("title", VStr "Need a website");
                                                  ("subreddit", VStr "r/phoenix");
                                                  ("link", VStr "1")];
                                           VList [VStr "1"] ]) |} in
  data_blob r = Parsed (VList [ VDict [("title", VStr "Need a website");
                                       ("subreddit", VStr "r/phoenix");
                                       ("link", VStr "1")];
                                VList [VStr "1"] ])
  /\ indexed_shape (VList [ VDict [("title", VStr "Need a website");
                                    ("subreddit", VStr "r/phoenix");
                                    ("link", VStr "1")];
                             VList [VStr "1"] ]) = true
  /\ row_raises (py := cpython) 100 r = true
  /\ row_leads (py := cpython) 100 r = [].
Proof.
  split; [reflexivity|]. split; [reflexivity|]. split; [vm_compute; reflexivity|].
  apply (indexed_row_all_or_nothing (py := cpython) 100 _
           (VList [ VDict [("title", VStr "Need a website");
                           ("subreddit", VStr "r/phoenix");
                           ("link", VStr "1")];
                    VList [VStr "1"] ])).
  - reflexivity.
  - reflexivity.
  - vm_compute. reflexivity.
Defined.

(** ** The returned leads *)




Lemma Forall_firstn {A} (P : A -> Prop) (n : nat) (l : list A) :
  Forall P l -> Forall P (firstn n l).
Proof.
  revert l. induction n as [|n IH]; intros l H; [constructor|].
  destruct H; simpl; constructor; auto.
Qed.






Lemma firstn_plus {A} (n m : nat) (l : list A) :
  firstn n l ++ firstn m (skipn n l) = firstn (n + m) l.
Proof.
  revert l. induction n as [|n IH]; intros l; [reflexivity|].
  destruct l as [|x l]; simpl.
  - rewrite firstn_nil. reflexivity.
  - rewrite IH. reflexivity.
Qed.

(** X12: consecutive pages tile the collection: for an offset O >= 0 and
    limits L1, L2 >= 0, the page (L1, O) followed by the page (L2, O + L1)
    is the page (L1 + L2, O); paging through the leads neither skips nor
    repeats one. *)
Theorem pages_compose (unique_leads : list dict) (offset limit1 limit2 : Z) :
  (0 <= offset)%Z -> (0 <= limit1)%Z -> (0 <= limit2)%Z ->
  paginate unique_leads limit1 offset
    ++ paginate unique_leads limit2 (offset + limit1)
  = paginate unique_leads (limit1 + limit2) offset.
Proof.
  intros Ho H1 H2. unfold paginate, py_slice, slice_bound.
  set (N := Z.of_nat (List.length unique_leads)).
  destruct (Z.ltb_spec offset 0); [lia|].
  destruct (Z.ltb_spec (offset + limit1) 0); [lia|].
  destruct (Z.ltb_spec (offset + limit1 + limit2) 0); [lia|].
  destruct (Z.ltb_spec (offset + (limit1 + limit2)) 0); [lia|].
  replace (Z.to_nat (Z.min (offset + limit1) N))
    with (Z.to_nat (Z.min (offset + limit1) N - Z.min offset N)
          + Z.to_nat (Z.min offset N)) by lia.
  rewrite <- skipn_skipn, firstn_plus. f_equal. lia.
Qed.

Lemma pages_compose_witness :
  (0 <= 1)%Z /\ (0 <= 1)%Z /\ (0 <= 5)%Z
  /\ paginate three_leads 1 1 ++ paginate three_leads 5 (1 + 1)
     = paginate three_leads (1 + 5) 1.
Proof.
  split; [lia|]. split; [lia|]. split; [lia|].
  apply (pages_compose three_leads 1 1 5); lia.
Defined.

(** X13: a negative limit is not an empty page.  With offset O >= 0 and
    limit L < 0 the slice end O + L is clipped as Python clips a slice
    bound: the page is empty while O + L >= 0, and once O + L < 0 the end
    counts from the end of the collection; with offset 0 the page is the
    whole collection without its last -L leads. *)
Theorem negative_limit_page (unique_leads : list dict) (limit offset : Z) :
  (limit < 0)%Z -> (0 <= offset)%Z ->
  ((0 <= offset + limit)%Z -> paginate unique_leads limit offset = [])
  /\ (offset = 0%Z ->
      paginate unique_leads limit offset
      = firstn (Z.to_nat (Z.of_nat (List.length unique_leads) + limit)) unique_leads).
Proof.
  intros Hl Ho. unfold paginate, py_slice, slice_bound. split.
  - intros Hsum.
    destruct (Z.ltb_spec offset 0); [lia|].
    destruct (Z.ltb_spec (offset + limit) 0); [lia|].
    replace (Z.to_nat _) with 0 by lia. reflexivity.
  - intros ->. simpl.
    destruct (Z.ltb_spec limit 0); [|lia].
    replace (Z.min 0 (Z.of_nat (List.length unique_leads))) with 0%Z by lia.
    simpl. f_equal. lia.
Qed.

Lemma negative_limit_page_witness :
  (-1 < 0)%Z /\ (0 <= 0)%Z
  /\ ((0 <= 0 + -1)%Z -> paginate three_leads (-1) 0 = [])
  /\ (0%Z = 0%Z ->
      paginate three_leads (-1) 0
      = firstn (Z.to_nat (Z.of_nat (List.length three_leads) + -1)) three_leads).
Proof.
  split; [lia|]. split; [lia|].
  apply (negative_limit_page three_leads (-1) 0); lia.
Defined.

(** ** Normalization *)

Lemma substring_length_le (n m : nat) (s : string) :
  String.length (substring n m s) <= m.
Proof.
  revert n m. induction s as [|c s IH]; intros [|n] [|m]; simpl; try lia.
  - specialize (IH 0 m). lia.
  - apply IH.
  - apply IH.
Qed.

(** X14: normalize either returns a dict with exactly the twelve output
    fields in their fixed order, in which subreddit, author and content are
    strings and content has at most 300 characters, or raises: AttributeError
    when subreddit or author is present with a value that is not a string
    (null included), TypeError when content is truthy and not a string.  So
    it returns exactly when these three fields are usable. *)
Theorem normalize_spec (lead : dict) :
  match normalize lead with
  | Ok normalized =>
      map fst normalized = normalized_fields
      /\ (exists s, dict_lookup normalized "subreddit" = Some (VStr s))
      /\ (exists a, dict_lookup normalized "author" = Some (VStr a))
      /\ (exists c, dict_lookup normalized "content" = Some (VStr c)
                    /\ String.length c <= 300)
  | Raise e =>
      (e = AttributeError
       /\ (is_str (dict_get lead "subreddit" (VStr "")) = false
           \/ is_str (dict_get lead "author" (VStr "")) = false))
      \/ (e = TypeError
          /\ truthy (dict_get lead "content" VNone) = true
          /\ is_str (dict_get lead "content" VNone) = false)
  end.
Proof.
  unfold normalize, rbind.
  destruct (dict_get lead "subreddit" (VStr "")) as [| | | s | |]; simpl;
    try (left; split; [reflexivity|left; reflexivity]).
  destruct (dict_get lead "author" (VStr "")) as [| | | a | |]; simpl;
    try (left; split; [reflexivity|right; reflexivity]).
  assert (Hcontent : dict_get lead "content" (VStr "") = dict_get lead "content" VNone
                     \/ dict_get lead "content" VNone = VNone).
  { unfold dict_get. destruct (dict_lookup lead "content"); auto. }
  destruct (truthy (dict_get lead "content" VNone)) eqn:Ht.
  - destruct Hcontent as [Hc|Hc]; [|rewrite Hc in Ht; discriminate].
    rewrite Hc. unfold clean_html_content. rewrite Ht. simpl.
    destruct (dict_get lead "content" VNone) as [| | | c | |]; simpl;
      try (right; repeat split; reflexivity).
    split; [reflexivity|]. split; [eexists; reflexivity|].
    split; [eexists; reflexivity|].
    eexists. split; [reflexivity|]. apply substring_length_le.
  - simpl. split; [reflexivity|]. split; [eexists; reflexivity|].
    split; [eexists; reflexivity|].
    exists "". split; [reflexivity|]. simpl. lia.
Qed.

(** ** The text cleaner: length, tags, whitespace *)

Lemma string_length_append (a b : string) :
  String.length (a ++ b)%string = String.length a + String.length b.
Proof.
  induction a as [|c a IH]; simpl; [reflexivity|]. rewrite IH. reflexivity.
Qed.

Lemma sub_from_cons (re : regex) (repl : string) (prev : bool) (skip : nat)
    (c : ascii) (s : string) :
  sub_from re repl prev skip (String c s)
  = match skip with
    | S n => sub_from re repl (is_word c) n s
    | O =>
        match match_here re prev (String c s) with
        | Some rest =>
            match String.length (String c s) - String.length rest with
            | S n => (repl ++ sub_from re repl (is_word c) n s)%string
            | O => String c (sub_from re repl (is_word c) 0 s)
            end
        | None => String c (sub_from re repl (is_word c) 0 s)
        end
    end.
Proof.
  reflexivity.
Qed.

Lemma sub_from_length (re : regex) (repl : string) :
  String.length repl <= min_len re ->
  forall s prev skip,
    skip <= String.length s ->
    String.length (sub_from re repl prev skip s) + skip <= String.length s.
Proof.
  intros Hrepl. induction s as [|c s IH]; intros prev skip Hskip.
  - simpl in *. lia.
  - rewrite sub_from_cons. destruct skip as [|n].
    + destruct (match_here re prev (String c s)) as [rest|] eqn:Hm.
      * pose proof (match_here_consumes re _ _ _ Hm) as Hc.
        remember (String.length (String c s) - String.length rest) as k eqn:Hk.
        change (String.length (String c s)) with (S (String.length s)) in *.
        destruct k as [|n].
        -- simpl. specialize (IH (is_word c) 0). lia.
        -- rewrite string_length_append.
           assert (Hle : n <= String.length s) by lia.
           specialize (IH (is_word c) n Hle). lia.
      * change (String.length (String c s)) with (S (String.length s)).
        simpl. specialize (IH (is_word c) 0). lia.
    + change (String.length (String c s)) with (S (String.length s)) in *.
      specialize (IH (is_word c) n). lia.
Qed.

Lemma re_sub_length (re : regex) (repl s : string) :
  String.length repl <= min_len re ->
  String.length (re_sub re repl s) <= String.length s.
Proof.
  intros Hrepl. unfold re_sub.
  pose proof (sub_from_length re repl Hrepl s false 0). lia.
Qed.

Lemma lstrip_length (s : string) : String.length (lstrip s) <= String.length s.
Proof.
  induction s as [|c s IH]; simpl; [lia|]. destruct (is_space c); simpl; lia.
Qed.

Lemma rstrip_length (s : string) : String.length (rstrip s) <= String.length s.
Proof.
  induction s as [|c s IH]; simpl; [lia|].
  destruct (rstrip s); [destruct (is_space c)|]; simpl in *; lia.
Qed.

(** X15: cleaning never lengthens a text: every substitution removes its
    match or puts one space in place of a match of at least one character,
    and the strip only removes. *)
Theorem clean_text_no_longer (content : string) :
  String.length (clean_text content) <= String.length content.
Proof.
  unfold clean_text, strip.
  repeat match goal with
         | |- String.length (rstrip ?x) <= _ =>
             apply Nat.le_trans with (String.length x); [apply rstrip_length|]
         | |- String.length (lstrip ?x) <= _ =>
             apply Nat.le_trans with (String.length x); [apply lstrip_length|]
         | |- String.length (re_sub ?re ?repl ?x) <= _ =>
             apply Nat.le_trans with (String.length x);
             [apply re_sub_length; simpl; lia|]
         end.
  lia.
Qed.

#[local] Arguments is_char : simpl never.
#[local] Arguments is_space : simpl never.

Lemma sub_from_skip (re : regex) (repl : string) :
  forall n s prev,
    exists prev', sub_from re repl prev n s = sub_from re repl prev' 0 (drop n s).
Proof.
  induction n as [|n IH]; intros s prev; [exists prev; reflexivity|].
  destruct s as [|c s]; [exists prev; reflexivity|].
  rewrite sub_from_cons. simpl drop. apply IH.
Qed.

Lemma thinned_refl (s : string) : thinned s s.
Proof.
  induction s; constructor; assumption.
Qed.

Lemma thinned_has_gt (out s : string) :
  thinned out s -> has_gt out = true -> has_gt s = true.
Proof.
  induction 1 as [|c out s _ IH|c out s _ IH|out s _ IH]; simpl; intros H; auto.
  - apply orb_true_iff in H. apply orb_true_iff. destruct H; auto.
  - rewrite (IH H). apply orb_true_r.
Qed.

Lemma thinned_tag_free (out s : string) :
  thinned out s -> tag_free s = true -> tag_free out = true.
Proof.
  induction 1 as [|c out s Hthin IH|c out s _ IH|out s _ IH]; simpl; intros H; auto.
  - apply andb_true_iff in H. destruct H as [Hc Hs]. rewrite (IH Hs), andb_true_r.
    destruct (is_char "<" c); [|reflexivity]. simpl in *.
    destruct (has_gt out) eqn:Hout; [|reflexivity].
    rewrite (thinned_has_gt _ _ Hthin Hout) in Hc. discriminate.
  - apply andb_true_iff in H. destruct H as [_ Hs]. exact (IH Hs).
Qed.

Lemma sub_from_thinned (re : regex) (repl : string) :
  repl = "" \/ repl = " " ->
  forall s prev skip, thinned (sub_from re repl prev skip s) s.
Proof.
  intros Hrepl. induction s as [|c s IH]; intros prev skip; [constructor|].
  rewrite sub_from_cons. destruct skip as [|n]; [|constructor; apply IH].
  destruct (match_here re prev (String c s)); [|constructor; apply IH].
  destruct (String.length (String c s) - String.length s0);
    [constructor; apply IH|].
  destruct Hrepl as [->| ->]; simpl; repeat constructor; apply IH.
Qed.

Lemma lstrip_thinned (s : string) : thinned (lstrip s) s.
Proof.
  induction s as [|c s IH]; simpl; [constructor|].
  destruct (is_space c); [constructor; exact IH|apply thinned_refl].
Qed.

Lemma rstrip_thinned (s : string) : thinned (rstrip s) s.
Proof.
  induction s as [|c s IH]; simpl; [constructor|].
  destruct (rstrip s); [|constructor; exact IH].
  destruct (is_space c); constructor; exact IH.
Qed.

Lemma star_tag (s : string) (prev : bool) :
  star_greedy not_gt (match_here [Chr ">"]) prev s = after_gt s.
Proof.
  revert prev. induction s as [|c s IH]; intros prev; [reflexivity|].
  cbn [star_greedy after_gt]. unfold not_gt.
  destruct (is_char ">" c) eqn:E; cbn [negb].
  - cbn [match_here]. unfold is_char in E. rewrite E. reflexivity.
  - rewrite IH. destruct (after_gt s); [reflexivity|].
    cbn [match_here]. unfold is_char in E. rewrite E. reflexivity.
Qed.

Lemma match_tag (prev : bool) (c : ascii) (s : string) :
  match_here re_tag prev (String c s) = if is_char "<" c then after_gt s else None.
Proof.
  change re_tag with [Chr "<"; Star not_gt; Chr ">"].
  cbn [match_here]. unfold is_char.
  destruct (Ascii.eqb "<" c); [apply star_tag|reflexivity].
Qed.

Lemma after_gt_drop (s rest : string) :
  after_gt s = Some rest ->
  String.length rest < String.length s
  /\ drop (String.length s - String.length rest) s = rest.
Proof.
  revert rest. induction s as [|c s IH]; intros rest H; simpl in H; [discriminate|].
  destruct (is_char ">" c).
  - inversion H; subst. change (String.length (String c rest)) with (S (String.length rest)).
    split; [lia|]. replace (S (String.length rest) - String.length rest) with 1 by lia.
    reflexivity.
  - destruct (IH rest H) as [Hlt Hdrop].
    change (String.length (String c s)) with (S (String.length s)).
    split; [lia|].
    replace (S (String.length s) - String.length rest)
      with (S (String.length s - String.length rest)) by lia.
    exact Hdrop.
Qed.

Lemma after_gt_none (s : string) : after_gt s = None -> has_gt s = false.
Proof.
  induction s as [|c s IH]; simpl; [reflexivity|].
  destruct (is_char ">" c); [discriminate|exact IH].
Qed.

(** After the tag substitution no tag span is left. *)
Lemma sub_tag_free :
  forall k s prev,
    String.length s <= k -> tag_free (sub_from re_tag "" prev 0 s) = true.
Proof.
  induction k as [|k IH]; intros s prev Hk.
  - destruct s; [reflexivity|simpl in Hk; lia].
  - destruct s as [|c s]; [reflexivity|].
    change (String.length (String c s)) with (S (String.length s)) in Hk.
    rewrite sub_from_cons, match_tag.
    destruct (is_char "<" c) eqn:Ec.
    + destruct (after_gt s) as [rest|] eqn:Hgt.
      * destruct (after_gt_drop _ _ Hgt) as [Hlt Hdrop].
        change (String.length (String c s)) with (S (String.length s)).
        replace (S (String.length s) - String.length rest)
          with (S (String.length s - String.length rest)) by lia.
        destruct (sub_from_skip re_tag "" (String.length s - String.length rest)
                    s (is_word c)) as [prev' Hskip].
        simpl. rewrite Hskip, Hdrop. apply IH. lia.
      * simpl. rewrite Ec. simpl.
        rewrite (IH s (is_word c)) by lia. rewrite andb_true_r.
        destruct (has_gt (sub_from re_tag "" (is_word c) 0 s)) eqn:Hout;
          [|reflexivity].
        pose proof (thinned_has_gt _ _
                      (sub_from_thinned re_tag "" (or_introl eq_refl) s _ 0) Hout) as Hs.
        rewrite (after_gt_none _ Hgt) in Hs. discriminate.
    + simpl. rewrite Ec. simpl. apply IH. lia.
Qed.

(** X16: the cleaned text holds no tag span any more: no [<] in it has a
    [>] anywhere after it.  The tag substitution removes every span
    [<...>], and the later substitutions and the strip only remove
    characters or put spaces in, which cannot bring a [<] before a [>]. *)
Theorem clean_text_tag_free (content : string) :
  tag_free (clean_text content) = true.
Proof.
  unfold clean_text, strip.
  repeat match goal with
         | |- tag_free (re_sub re_tag "" ?x) = true =>
             exact (sub_tag_free (String.length x) x false (Nat.le_refl _))
         | |- tag_free (rstrip ?x) = true =>
             apply (thinned_tag_free _ x (rstrip_thinned x))
         | |- tag_free (lstrip ?x) = true =>
             apply (thinned_tag_free _ x (lstrip_thinned x))
         | |- tag_free (re_sub ?re "" ?x) = true =>
             apply (thinned_tag_free _ x
                      (sub_from_thinned re "" (or_introl eq_refl) x false 0))
         | |- tag_free (re_sub ?re " " ?x) = true =>
             apply (thinned_tag_free _ x
                      (sub_from_thinned re " " (or_intror eq_refl) x false 0))
         end.
Qed.

Lemma star_spaces (s : string) (prev : bool) :
  star_greedy is_space (match_here []) prev s = Some (lstrip s).
Proof.
  revert prev. induction s as [|c s IH]; intros prev; [reflexivity|].
  cbn [star_greedy lstrip]. destruct (is_space c); [|reflexivity].
  rewrite IH. reflexivity.
Qed.

Lemma match_spaces (prev : bool) (c : ascii) (s : string) :
  match_here re_spaces prev (String c s)
  = if is_space c then Some (lstrip s) else None.
Proof.
  change re_spaces with [Plus is_space]. cbn [match_here].
  destruct (is_space c); [apply star_spaces|reflexivity].
Qed.

Lemma lstrip_drop (s : string) :
  String.length (lstrip s) <= String.length s
  /\ drop (String.length s - String.length (lstrip s)) s = lstrip s.
Proof.
  induction s as [|c s [Hle Hdrop]]; [split; reflexivity|].
  cbn [lstrip]. destruct (is_space c).
  - change (String.length (String c s)) with (S (String.length s)).
    split; [lia|].
    replace (S (String.length s) - String.length (lstrip s))
      with (S (String.length s - String.length (lstrip s))) by lia.
    exact Hdrop.
  - split; [lia|]. rewrite Nat.sub_diag. reflexivity.
Qed.

Lemma lstrip_unspaced (s : string) : starts_unspaced (lstrip s) = true.
Proof.
  induction s as [|c s IH]; [reflexivity|].
  cbn [lstrip]. destruct (is_space c) eqn:E; [exact IH|].
  cbn [starts_unspaced]. rewrite E. reflexivity.
Qed.

(** After the whitespace substitution every run of whitespace is one space. *)
Lemma sub_spaces_tidy :
  forall k s prev,
    String.length s <= k ->
    tidy_from false (sub_from re_spaces " " prev 0 s) = true
    /\ (starts_unspaced s = true ->
        tidy_from true (sub_from re_spaces " " prev 0 s) = true).
Proof.
  induction k as [|k IH]; intros s prev Hk.
  - destruct s; [split; reflexivity|simpl in Hk; lia].
  - destruct s as [|c s]; [split; reflexivity|].
    change (String.length (String c s)) with (S (String.length s)) in Hk.
    rewrite sub_from_cons, match_spaces. cbn [starts_unspaced].
    destruct (is_space c) eqn:Ec.
    + destruct (lstrip_drop s) as [Hle Hdrop].
      change (String.length (String c s)) with (S (String.length s)).
      replace (S (String.length s) - String.length (lstrip s))
        with (S (String.length s - String.length (lstrip s))) by lia.
      destruct (sub_from_skip re_spaces " "
                  (String.length s - String.length (lstrip s)) s (is_word c))
        as [prev' Hskip].
      rewrite Hskip, Hdrop.
      split; [|discriminate].
      change (" " ++ sub_from re_spaces " " prev' 0 (lstrip s))%string
        with (String " " (sub_from re_spaces " " prev' 0 (lstrip s))).
      cbn [tidy_from].
      replace (is_space " ") with true by reflexivity.
      replace (is_char " " " ") with true by reflexivity.
      cbn [negb andb].
      apply IH; [lia|apply lstrip_unspaced].
    + cbn [tidy_from]. rewrite Ec.
      destruct (IH s (is_word c)) as [Hfalse _]; [lia|].
      split; [exact Hfalse|intros _; exact Hfalse].
Qed.

Lemma tidy_lstrip_same (s : string) : tidy_from true s = true -> lstrip s = s.
Proof.
  destruct s as [|c s]; [reflexivity|]. cbn [tidy_from lstrip].
  destruct (is_space c); [|reflexivity].
  rewrite andb_false_r. discriminate.
Qed.

Lemma lstrip_tidy (s : string) :
  tidy_from false s = true -> tidy_from true (lstrip s) = true.
Proof.
  destruct s as [|c s]; [reflexivity|]. cbn [tidy_from lstrip].
  destruct (is_space c) eqn:Ec.
  - intros H. apply andb_true_iff in H. destruct H as [_ H].
    rewrite (tidy_lstrip_same s H). exact H.
  - intros H. cbn [tidy_from]. rewrite Ec. exact H.
Qed.

Lemma rstrip_tidy (s : string) :
  forall b, tidy_from b s = true -> tidy_from b (rstrip s) = true.
Proof.
  induction s as [|c s IH]; intros b H; [reflexivity|].
  cbn [rstrip]. cbn [tidy_from] in H.
  destruct (rstrip s) as [|c' r] eqn:Er.
  - destruct (is_space c) eqn:Ec; [reflexivity|].
    cbn [tidy_from]. rewrite Ec. reflexivity.
  - cbn [tidy_from]. destruct (is_space c).
    + apply andb_true_iff in H. destruct H as [Hc H].
      rewrite Hc. exact (IH true H).
    + exact (IH false H).
Qed.

Lemma rstrip_no_space_end (s : string) : ends_in_space (rstrip s) = false.
Proof.
  induction s as [|c s IH]; [reflexivity|].
  cbn [rstrip]. destruct (rstrip s) as [|c' r] eqn:Er.
  - destruct (is_space c) eqn:Ec; [reflexivity|]. cbn [ends_in_space]. exact Ec.
  - exact IH.
Qed.

(** X17: the whitespace of the cleaned text is in normal form: none at the
    start, none at the end, and every whitespace character inside is a
    single space between two other characters (tabs, newlines and runs of
    spaces are gone). *)
Theorem clean_text_tidy (content : string) : tidy (clean_text content) = true.
Proof.
  unfold clean_text, strip, tidy.
  rewrite rstrip_no_space_end, andb_true_r.
  apply rstrip_tidy, lstrip_tidy.
  match goal with
  | |- tidy_from false (re_sub re_spaces " " ?x) = true =>
      exact (proj1 (sub_spaces_tidy (String.length x) x false (Nat.le_refl _)))
  end.
Qed.

(** ** The command line *)

Section command_line.
Context {py : interpreter}.

Lemma arg_loop_scan (argv : list string) :
  forall args before limit offset,
    argv = before ++ args ->
    arg_loop argv (List.length before - 1) args limit offset = scan args limit offset
    \/ before = [].
Proof.
  induction args as [|arg args IH]; intros before limit offset Hargv.
  - left. reflexivity.
  - destruct before as [|b before]; [right; reflexivity|left].
    assert (Hlen : List.length argv = S (List.length before) + S (List.length args)).
    { rewrite Hargv. simpl. rewrite length_app. simpl. lia. }
    assert (Hnext : forall limit' offset',
               arg_loop argv (S (List.length (b :: before) - 1)) args limit' offset'
               = scan args limit' offset').
    { intros limit' offset'.
      destruct (IH ((b :: before) ++ [arg]) limit' offset') as [H|H].
      - rewrite <- app_assoc. exact Hargv.
      - rewrite length_app in H. simpl in *.
        replace (S (List.length before - 0)) with (List.length before + 1 - 0) by lia.
        exact H.
      - destruct before; discriminate. }
    cbn [arg_loop].
    replace (List.length (b :: before) - 1 + 2) with (S (S (List.length before)))
      by (simpl; lia).
    destruct args as [|next args'].
    + replace (S (S (List.length before)) <? List.length argv)%nat with false
        by (symmetry; apply Nat.ltb_ge; simpl in Hlen; lia).
      rewrite !andb_false_r. apply Hnext.
    + replace (S (S (List.length before)) <? List.length argv)%nat with true
        by (symmetry; apply Nat.ltb_lt; simpl in Hlen; lia).
      rewrite !andb_true_r.
      replace (nth (S (S (List.length before))) argv "") with next.
      * cbn [scan].
        destruct (arg =? "--limit");
          [destruct (py_int next); [apply Hnext|reflexivity]|].
        destruct (arg =? "--offset");
          [destruct (py_int next); [apply Hnext|reflexivity]|].
        apply Hnext.
      * rewrite Hargv.
        change (b :: before) with ([b] ++ before). rewrite <- app_assoc.
        simpl. rewrite app_nth2 by lia.
        replace (S (List.length before) - List.length before) with 1 by lia.
        reflexivity.
Qed.

Lemma parse_args_scan (argv : list string) :
  parse_args argv = scan (tl argv) 50 0.
Proof.
  unfold parse_args. destruct argv as [|prog args]; [reflexivity|].
  destruct (arg_loop_scan (prog :: args) args [prog] 50 0 eq_refl) as [H|H];
    [exact H|discriminate].
Qed.

Lemma scan_skip (arg : string) (args : list string) (limit offset : Z) :
  is_flag arg = false -> scan (arg :: args) limit offset = scan args limit offset.
Proof.
  unfold is_flag. intros H. apply orb_false_elim in H. destruct H as [Hl Ho].
  destruct args as [|next args]; [reflexivity|].
  cbn [scan]. rewrite Hl, Ho. reflexivity.
Qed.

(** X18: arguments that are neither --limit nor --offset are ignored: when
    no argument after the program name is one of the two flags, whatever
    else the command line holds, the script calls get_leads with the
    defaults, limit 50 and offset 0. *)
Theorem parse_args_defaults (argv : list string) :
  Forall (fun arg => is_flag arg = false) (tl argv) ->
  parse_args argv = Some (50%Z, 0%Z).
Proof.
  rewrite parse_args_scan. generalize (tl argv). intros args H.
  induction H as [|arg args Harg _ IH]; [reflexivity|].
  rewrite (scan_skip _ _ _ _ Harg). exact IH.
Qed.

(** X19: on a command line made of flag/value pairs, each flag --limit or
    --offset and each value an argument that is no flag and that int
    converts, in any order and number, the limit is the value of the last
    --limit pair (50 if there is none) and the offset the value of the last
    --offset pair (0 if there is none). *)
Theorem parse_args_pairs (prog : string) (pairs : list (string * string)) :
  Forall well_formed_pair pairs ->
  parse_args (prog :: flat_map (fun p => [fst p; snd p]) pairs)
  = Some (last_values pairs 50 0).
Proof.
  intros H. rewrite parse_args_scan. cbn [tl]. generalize 50%Z 0%Z.
  induction H as [|[flag text] pairs [Hflag [Hvalue Hint]] _ IH]; intros limit offset;
    [reflexivity|].
  cbn [flat_map app fst snd last_values] in *.
  assert (Hskip : forall l o,
             scan (text :: flat_map (fun p => [fst p; snd p]) pairs) l o
             = Some (last_values pairs l o)).
  { intros l o. rewrite scan_skip by exact Hvalue. apply IH. }
  cbn [scan]. destruct (py_int text) as [n|]; [|contradiction].
  unfold is_flag in Hflag.
  destruct (flag =? "--limit"); [apply Hskip|].
  destruct (flag =? "--offset"); [apply Hskip|discriminate].
Qed.

(** X20: a flag followed by an argument on which int raises ValueError
    stops the script, wherever the two stand on the command line: the
    exception is not caught, get_leads is not called and no envelope is
    printed. *)
Theorem parse_args_bad_value (prog flag text : string) (before after : list string) :
  is_flag flag = true ->
  py_int text = None ->
  parse_args (prog :: before ++ flag :: text :: after) = None.
Proof.
  intros Hflag Hint. rewrite parse_args_scan. cbn [tl]. generalize 50%Z 0%Z.
  induction before as [|arg before IH]; intros limit offset.
  - cbn [app scan]. rewrite Hint. unfold is_flag in Hflag.
    destruct (flag =? "--limit"); [reflexivity|].
    destruct (flag =? "--offset"); [reflexivity|discriminate].
  - cbn [app].
    destruct (before ++ flag :: text :: after) as [|next rest] eqn:E.
    + destruct before; discriminate.
    + cbn [scan].
      destruct (arg =? "--limit"); [destruct (py_int next); [apply IH|reflexivity]|].
      destruct (arg =? "--offset"); [destruct (py_int next); [apply IH|reflexivity]|].
      apply IH.
Qed.

(** X21: a flag in last position has no value and is ignored: adding
    --limit or --offset at the end of a command line whose last argument is
    not itself a flag changes nothing. *)
Theorem parse_args_trailing_flag (argv : list string) (flag : string) :
  is_flag (last argv "") = false ->
  parse_args (argv ++ [flag]) = parse_args argv.
Proof.
  intros Hlast. rewrite !parse_args_scan.
  destruct argv as [|prog args]; [reflexivity|]. cbn [app tl].
  assert (Hargs : args = [] \/ is_flag (last args "") = false).
  { destruct args as [|a args]; [left; reflexivity|right]. exact Hlast. }
  clear Hlast. generalize 50%Z 0%Z.
  induction args as [|a args IH]; intros limit offset; [reflexivity|].
  destruct Hargs as [Hargs|Hargs]; [discriminate|].
  destruct args as [|b args].
  - cbn [app]. rewrite scan_skip by exact Hargs. reflexivity.
  - cbn [app scan].
    assert (IH' : forall l o, scan (b :: args ++ [flag]) l o = scan (b :: args) l o).
    { intros l o. apply IH. right. exact Hargs. }
    destruct (a =? "--limit"); [destruct (py_int b); [apply IH'|reflexivity]|].
    destruct (a =? "--offset"); [destruct (py_int b); [apply IH'|reflexivity]|].
    apply IH'.
Qed.

End command_line.

Lemma parse_args_defaults_witness :
  Forall (fun arg => is_flag arg = false)
         (tl ["get-reddit-leads.py"; "--verbose"; "12"])
  /\ parse_args (py := cpython) ["get-reddit-leads.py"; "--verbose"; "12"] = Some (50%Z, 0%Z).
Proof.
  split.
  - repeat constructor.
  - apply (parse_args_defaults (py := cpython) ["get-reddit-leads.py"; "--verbose"; "12"]).
    repeat constructor.
Defined.

Lemma parse_args_pairs_witness :
  Forall (well_formed_pair (py := cpython))
         [("--offset", "20"); ("--limit", "5"); ("--limit", "10")]
  /\ parse_args (py := cpython)
       ("get-reddit-leads.py"
          :: flat_map (fun p => [fst p; snd p])
               [("--offset", "20"); ("--limit", "5"); ("--limit", "10")])
     = Some (10%Z, 20%Z).
Proof.
  assert (H : Forall (well_formed_pair (py := cpython))
                [("--offset", "20"); ("--limit", "5"); ("--limit", "10")]).
  { repeat constructor; discriminate. }
  split; [exact H|].
  exact (parse_args_pairs (py := cpython) "get-reddit-leads.py" _ H).
Defined.

Lemma parse_args_bad_value_witness :
  is_flag "--limit" = true
  /\ py_int (interpreter := cpython) "1.5" = None
  /\ parse_args (py := cpython)
       ("get-reddit-leads.py" :: ["--verbose"] ++ "--limit" :: "1.5" :: ["3"])
     = None.
Proof.
  split; [reflexivity|]. split; [reflexivity|].
  apply (parse_args_bad_value (py := cpython) "get-reddit-leads.py"
           "--limit" "1.5" ["--verbose"] ["3"]); reflexivity.
Defined.

Lemma parse_args_trailing_flag_witness :
  is_flag (last ["get-reddit-leads.py"; "--limit"; "5"] "") = false
  /\ parse_args (py := cpython) (["get-reddit-leads.py"; "--limit"; "5"] ++ ["--offset"])
     = parse_args (py := cpython) ["get-reddit-leads.py"; "--limit"; "5"].
Proof.
  split; [reflexivity|].
  apply (parse_args_trailing_flag (py := cpython) ["get-reddit-leads.py"; "--limit"; "5"] "--offset").
  reflexivity.
Defined.

(** ** The order of the returned leads *)

Lemma normalize_found_at (lead normalized : dict) :
  normalize lead = Ok normalized -> found_at_key normalized = found_at_key lead.
Proof.
  unfold normalize, rbind.
  destruct (py_replace (dict_get lead "subreddit" (VStr "")) "r/"); [|discriminate].
  destruct (py_replace (dict_get lead "author" (VStr "")) "u/"); [|discriminate].
  match goal with
  | |- match ?c with _ => _ end = _ -> _ => destruct c; [|discriminate]
  end.
  intros H. inversion H. reflexivity.
Qed.

Lemma sorted_slice (l : list dict) (start stop : Z) :
  StronglySorted found_at_ge l -> StronglySorted found_at_ge (py_slice l start stop).
Proof.
  unfold py_slice. intros H.
  set (a := Z.to_nat (slice_bound (Z.of_nat (List.length l)) start)).
  set (n := Z.to_nat _).
  assert (Hskip : StronglySorted found_at_ge (skipn a l)).
  { clearbody a. clear n. revert l H. induction a as [|a IH]; intros l H; [exact H|].
    destruct H; simpl; [constructor|auto]. }
  clearbody n. generalize dependent (skipn a l). clear.
  intros l H. revert n. induction H as [|x l _ IH Hx]; intros [|n]; simpl;
    constructor; auto.
  apply Forall_firstn. exact Hx.
Qed.

Lemma sorted_normalized (leads normalized : list dict) :
  rmap normalize leads = Ok normalized ->
  StronglySorted found_at_ge leads ->
  StronglySorted found_at_ge normalized.
Proof.
  intros H. apply rmap_Forall2 in H.
  induction H as [|lead n leads ns Hn Hrest IH]; intros Hs; [constructor|].
  apply StronglySorted_inv in Hs. destruct Hs as [Hs Hx].
  constructor; [auto|].
  unfold found_at_ge in *. rewrite (normalize_found_at _ _ Hn). clear - Hx Hrest.
  induction Hrest as [|a b l l' Hab _ IHl]; [constructor|].
  inversion Hx; subst. constructor; [|auto].
  rewrite (normalize_found_at _ _ Hab). assumption.
Qed.

(** X22: the leads of every envelope get_leads returns are in descending
    order of foundAt, on whatever page was asked for: the order the sort
    gives is kept by the slice and by the normalization, which copies
    foundAt. *)
Theorem returned_leads_sorted {py : interpreter} (depth : nat) (db : store) (limit offset : Z) :
  match snd (get_leads depth db limit offset) with
  | Ok (VDict envelope) =>
      exists leads,
        dict_lookup envelope "leads" = Some (VList (map VDict leads))
        /\ StronglySorted found_at_ge leads
  | Ok _ => False
  | Raise _ => True
  end.
Proof.
  assert (Herr : forall message,
             match Ok (error_envelope message) with
             | Ok (VDict envelope) =>
                 exists leads,
                   dict_lookup envelope "leads" = Some (VList (map VDict leads))
                   /\ StronglySorted found_at_ge leads
             | Ok _ => False
             | Raise _ => True
             end).
  { intros message. exists []. split; [reflexivity|constructor]. }
  unfold get_leads.
  destruct (connect db); [|apply Herr].
  destruct (cursor db); [|apply Herr].
  destruct (execute db); [|apply Herr].
  destruct (fetchall db) as [rows|]; [|apply Herr].
  destruct (close db); [|apply Herr].
  simpl. unfold finish.
  destruct (dedup (flat_map (row_leads depth) rows)) as [unique|]; simpl; [|exact I].
  unfold respond. simpl.
  destruct (rmap normalize (paginate (sort_leads unique) limit offset))
    as [normalized|] eqn:Hn; simpl; [|exact I].
  exists normalized. split; [reflexivity|].
  apply (sorted_normalized _ _ Hn). apply sorted_slice. apply sort_leads_sorted.
Qed.
